(** * PiOBDII: the ELM327 response framer, line pruner and trouble-code decoder

    A shallow embedding of [PiOBDII.py].  Python values are modelled as
    follows.

    - [str] is [list ascii]; every string of the program is built by
      [GetResponse], which decodes one received byte at a time, so a
      character is a code point below 256.
    - [bytes] is [list byte], [int] is [Z].
    - An exception is a constructor of [exn], carried by [result] for pure
      code and by [outcome] for code that drives the serial port.
    - The serial port is a record: the bytes and time-outs its [read()]
      will deliver, the log of what was written, and whether and how
      often it was closed.  Code that uses the port is a function from
      the port to an [outcome].
    - The [while] loop of [GetResponse] need not end, so it takes a bound
      on its turns; [Spin] is the outcome of a loop that is still turning
      when the bound is reached.  The loop of [DataToTroubleCodes]
      shortens its data at each turn and is defined by recursion on the
      length.
    - The two lookup tables, which the program loads from text files, are
      [gmap]s from strings to strings and are parameters of the
      development. *)

From Stdlib Require Import ZArith Ascii String Lia.
From Stdlib.Strings Require Import Byte.
From stdpp Require Import gmap strings list.
From Equations Require Import Equations.

Local Open Scope Z_scope.

(** ** Python strings *)

Abbreviation str := (list ascii).
Abbreviation bytes := (list Byte.byte).

Definition lit (s : string) : str := list_ascii_of_string s.
Definition blit (s : string) : bytes := list_byte_of_string s.

Definition LF : ascii := "010"%char.
Definition CR : ascii := "013"%char.

(** [s[i:]] and [s[:j]] for a Python [int] bound: a negative bound counts
    from the end, and bounds outside the sequence are clipped. *)
Definition slice_bound {A} (l : list A) (i : Z) : nat :=
  Z.to_nat (if i <? 0 then Z.max 0 (Z.of_nat (length l) + i) else i).

Definition slice_from {A} (l : list A) (i : Z) : list A :=
  drop (slice_bound l i) l.

Definition slice_to {A} (l : list A) (j : Z) : list A :=
  take (slice_bound l j) l.

(** [s.split(sep)] for a separator of one character: one piece more than
    there are separators, empty pieces kept. *)
Fixpoint split (sep : ascii) (s : str) : list str :=
  match s with
  | [] => [[]]
  | c :: s' =>
      if decide (c = sep) then [] :: split sep s'
      else match split sep s' with
           | piece :: pieces => (c :: piece) :: pieces
           | [] => [[c]]
           end
  end.

(** [sep.join(pieces)], the inverse of [split]. *)
Fixpoint join (sep : ascii) (pieces : list str) : str :=
  match pieces with
  | [] => []
  | [piece] => piece
  | piece :: pieces' => piece ++ sep :: join sep pieces'
  end.

(** [enumerate(l)] *)
Fixpoint enumerate_from {A} (start : Z) (l : list A) : list (Z * A) :=
  match l with
  | [] => []
  | x :: l' => (start, x) :: enumerate_from (start + 1) l'
  end.

Definition enumerate {A} (l : list A) : list (Z * A) := enumerate_from 0 l.

(** ** The line pruner *)

Definition PruneData (Data : str) (RemoveByteCount : Z) : str :=
  let Response := [] in
  let Lines := split LF Data in
  fold_left
    (fun Response Line => Response ++ slice_from Line (2 * RemoveByteCount))
    Lines Response.

Definition PruneDataVin (Data : str) (RemoveByteCount : Z) : str :=
  let Response := [] in
  fold_left
    (fun Response '(index, Line) =>
       if index =? 1 then Response ++ slice_from Line (2 * 4)
       else if (2 <=? index) && (index <? 4) then Response ++ slice_from Line 2
       else Response ++ slice_from Line (2 * RemoveByteCount))
    (enumerate (split LF Data)) Response.

(** ** The line pruner, seen line by line *)

(** The number of characters the VIN rule takes off the line at [index],
    in the words of the specification: four byte pairs at index 1, one
    byte pair at indices 2 and 3, the caller's count of pairs elsewhere. *)
Definition vin_prefix_length (removeBytePairs : nat) (index : nat) : nat :=
  match index with
  | 1 => 2 * 4
  | 2 | 3 => 2 * 1
  | _ => 2 * removeBytePairs
  end%nat.

(** ** Exceptions and results *)

Inductive exn : Set :=
  | TypeError
  | ValueError
  | UnicodeDecodeError
  | KeyError
  | IndexError
  | PortNotOpenError
  | SystemExit.

(** The built-in class hierarchy, as far as the program meets it. *)
Definition is_LookupError (e : exn) : bool :=
  match e with KeyError | IndexError => true | _ => false end.

Inductive result (A : Type) : Type :=
  | Ok (a : A)
  | Raise (e : exn).
Arguments Ok {A} a.
Arguments Raise {A} e.

#[global] Instance exn_eq_dec : EqDecision exn.
Proof. solve_decision. Defined.

#[global] Instance result_eq_dec {A} `{EqDecision A} : EqDecision (result A).
Proof. solve_decision. Defined.

Definition result_bind {A B} (r : result A) (k : A -> result B) : result B :=
  match r with
  | Ok a => k a
  | Raise e => Raise e
  end.

Declare Scope result_scope.
Delimit Scope result_scope with result.
Notation "x <- r ;; k" := (result_bind r (fun x => k))
  (at level 100, r at next level, right associativity) : result_scope.

(** ** [int(s)] in base ten

    White space around the number is skipped, one sign is allowed, and the
    digits may be separated by single underscores.  The program applies
    [int] to groups of at most four characters.  [is_int_space] is the
    white space [int] skips: the ASCII white space of C and, among the
    code points 128 to 255, NEL and the no-break space. *)
Definition is_int_space (c : ascii) : bool :=
  match N_of_ascii c with
  | 9 | 10 | 11 | 12 | 13 | 32 | 133 | 160 => true
  | _ => false
  end%N.

Definition digit_value (c : ascii) : option Z :=
  let n := Z.of_N (N_of_ascii c) in
  if (48 <=? n) && (n <=? 57) then Some (n - 48) else None.

Fixpoint lstrip (s : str) : str :=
  match s with
  | c :: s' => if is_int_space c then lstrip s' else s
  | [] => []
  end.

Definition strip (s : str) : str := rev (lstrip (rev (lstrip s))).

Fixpoint int_digits (acc : Z) (after_underscore : bool) (s : str) : option Z :=
  match s with
  | [] => if after_underscore then None else Some acc
  | c :: s' =>
      if decide (c = "_"%char) then
        if after_underscore then None else int_digits acc true s'
      else
        match digit_value c with
        | Some d => int_digits (10 * acc + d) false s'
        | None => None
        end
  end.

Definition py_int (s : str) : result Z :=
  let t := strip s in
  let '(negative, body) :=
    match t with
    | c :: r =>
        if decide (c = "+"%char) then (false, r)
        else if decide (c = "-"%char) then (true, r)
        else (false, t)
    | [] => (false, t)
    end in
  match body with
  | [] => Raise ValueError
  | c :: _ =>
      if decide (c = "_"%char) then Raise ValueError
      else match int_digits 0 false body with
           | Some n => Ok (if negative then - n else n)
           | None => Raise ValueError
           end
  end.

(** ** Dictionaries and indexing *)

(** [d[k]] *)
Definition dict_get (d : gmap str str) (k : str) : result str :=
  match d !! k with
  | Some v => Ok v
  | None => Raise KeyError
  end.

(** [s[0]], a string of one character *)
Definition first_char (s : str) : result str :=
  match s with
  | c :: _ => Ok [c]
  | [] => Raise IndexError
  end.

(** ** The trouble-code decoder *)

Section Decoder.

(** The tables the program reads at start-up from
    [TroubleCodePrefix.txt] and the [TroubleCodes-*.txt] files. *)
Variable TroubleCodePrefix : gmap str str.
Variable TroubleCodeDescriptions : gmap str str.

(** The body of the [while] loop for the group [ThisCode]: the list of
    codes after this group. *)
Definition decode_group (ThisCode : str) (TroubleCodes : list str)
  : result (list str) :=
  (value <- py_int ThisCode ;;
   if decide (value <> 0) then
     digit <- first_char ThisCode ;;
     prefix <- dict_get TroubleCodePrefix digit ;;
     Ok (TroubleCodes ++ [prefix ++ slice_from ThisCode 1])
   else Ok TroubleCodes)%result.

(** [while len(Data) > 0]: each turn takes four characters off [Data]. *)
Equations? DataToTroubleCodes_loop (Data : str) (TroubleCodes : list str)
  : result (list str) by wf (length Data) lt :=
DataToTroubleCodes_loop [] TroubleCodes := Ok TroubleCodes;
DataToTroubleCodes_loop (c :: Data') TroubleCodes :=
  let Data := c :: Data' in
  let ThisCode := slice_to Data 4 in
  match decode_group ThisCode TroubleCodes with
  | Ok TroubleCodes' => DataToTroubleCodes_loop (slice_from Data 4) TroubleCodes'
  | Raise e => Raise e
  end.
Proof.
  unfold slice_from, slice_bound. simpl. rewrite length_drop. lia.
Qed.

Definition DataToTroubleCodes (Data : str) : result (list str) :=
  DataToTroubleCodes_loop Data [].

(** The body of the [for] loop of [GetTroubleCodeData]: the code, then
    its description or, when the look-up raises, the placeholder. *)
Definition describe (TroubleCodeData : str) (TroubleCode : str) : str :=
  let TroubleCodeData := TroubleCodeData ++ TroubleCode in
  match dict_get TroubleCodeDescriptions TroubleCode with
  | Ok Description => TroubleCodeData ++ (lit " : " ++ Description ++ [LF])
  | Raise _ => TroubleCodeData ++ (lit " : [DESCRIPTION NOT FOUND]" ++ [LF])
  end.

Definition describe_all (TroubleCodes : list str) : str :=
  fold_left describe TroubleCodes [].

End Decoder.

(** ** More string operations *)

Fixpoint starts_with (sub s : str) : bool :=
  match sub, s with
  | [], _ => true
  | _ :: _, [] => false
  | a :: sub', b :: s' => bool_decide (a = b) && starts_with sub' s'
  end.

(** [s.find(sub)]: the lowest index at which [sub] occurs, or [-1]. *)
Fixpoint find_from (sub s : str) (index : Z) : Z :=
  if starts_with sub s then index
  else match s with
       | [] => -1
       | _ :: s' => find_from sub s' (index + 1)
       end.

Definition find (s sub : str) : Z := find_from sub s 0.

(** [s.replace(old, new)]: the occurrences of [old] are found from the
    left and do not overlap.  [skip] counts the characters of an
    occurrence that are still to be passed over. *)
Fixpoint replace_from (old new : str) (skip : nat) (s : str) : str :=
  match s with
  | [] => []
  | c :: s' =>
      match skip with
      | S skip' => replace_from old new skip' s'
      | O =>
          if starts_with old s
          then new ++ replace_from old new (length old - 1) s'
          else c :: replace_from old new 0 s'
      end
  end.

Definition replace (s old new : str) : str :=
  match old with
  | [] => new ++ concat (map (fun c => c :: new) s)
  | _ :: _ => replace_from old new 0 s
  end.

(** ** Bytes *)

#[global] Instance byte_eq_dec : EqDecision Byte.byte := Byte.byte_eq_dec.

Definition CR_byte : Byte.byte := x0d.
Definition prompt_byte : Byte.byte := x3e.

(** [str(b, 'utf-8')] for a [bytes] object [b] of at most one byte, which
    is what [Serial.read()] returns: [None] is [b''].  A byte on its own
    is valid UTF-8 exactly when it is below 128. *)
Definition decode_byte (b : option Byte.byte) : result str :=
  match b with
  | None => Ok []
  | Some x =>
      if (Byte.to_N x <? 128)%N then Ok [ascii_of_byte x]
      else Raise UnicodeDecodeError
  end.

Definition hex_value (c : ascii) : option N :=
  let n := N_of_ascii c in
  (if (48 <=? n) && (n <=? 57) then Some (n - 48)
   else if (65 <=? n) && (n <=? 70) then Some (n - 55)
   else if (97 <=? n) && (n <=? 102) then Some (n - 87)
   else None)%N.

(** The white space [bytes.fromhex] skips. *)
Definition is_hex_space (c : ascii) : bool :=
  match N_of_ascii c with
  | 9 | 10 | 11 | 12 | 13 | 32 => true
  | _ => false
  end%N.

(** [bytearray.fromhex(s)]: pairs of hexadecimal digits, white space
    allowed before a pair.  [top] is the first digit of a pair whose
    second digit is next. *)
Fixpoint fromhex_from (top : option N) (s : str) : result bytes :=
  match s, top with
  | [], None => Ok []
  | [], Some _ => Raise ValueError
  | c :: s', None =>
      if is_hex_space c then fromhex_from None s'
      else match hex_value c with
           | Some t => fromhex_from (Some t) s'
           | None => Raise ValueError
           end
  | c :: s', Some t =>
      match hex_value c with
      | Some b =>
          (rest <- fromhex_from None s' ;;
           Ok (byte_of_ascii (ascii_of_N (16 * t + b)%N) :: rest))%result
      | None => Raise ValueError
      end
  end.

Definition fromhex (s : str) : result bytes := fromhex_from None s.

(** Well-formed UTF-8: [pending] lists the ranges the continuation bytes
    of the current character must fall in. *)
Fixpoint utf8_valid_from (pending : list (N * N)) (b : bytes) : bool :=
  match b with
  | [] => match pending with [] => true | _ :: _ => false end
  | x :: b' =>
      let n := Byte.to_N x in
      match pending with
      | (lo, hi) :: pending' =>
          (lo <=? n)%N && (n <=? hi)%N && utf8_valid_from pending' b'
      | [] =>
          let tail := (128, 191)%N in
          if (n <=? 127)%N then utf8_valid_from [] b'
          else if (194 <=? n)%N && (n <=? 223)%N then utf8_valid_from [tail] b'
          else if (n =? 224)%N then utf8_valid_from [(160, 191)%N; tail] b'
          else if (225 <=? n)%N && (n <=? 236)%N then utf8_valid_from [tail; tail] b'
          else if (n =? 237)%N then utf8_valid_from [(128, 159)%N; tail] b'
          else if (238 <=? n)%N && (n <=? 239)%N then utf8_valid_from [tail; tail] b'
          else if (n =? 240)%N then utf8_valid_from [(144, 191)%N; tail; tail] b'
          else if (241 <=? n)%N && (n <=? 243)%N then utf8_valid_from [tail; tail; tail] b'
          else if (n =? 244)%N then utf8_valid_from [(128, 143)%N; tail; tail] b'
          else false
      end
  end.

(** [str(b, 'UTF-8')] for any [bytes]: the text is kept in its UTF-8
    form, which the decoder accepts when it is well formed. *)
Definition decode_utf8 (b : bytes) : result bytes :=
  if utf8_valid_from [] b then Ok b else Raise UnicodeDecodeError.

(** ** The serial port

    [incoming] lists what the next calls of [read()] find: [Some b] is a
    byte that arrives within the time-out, [None] a call that times out;
    after the list every call times out.  [written] is the log of the
    calls of [write], [closes] counts the calls of [close].  Writes are
    taken to complete within their time-out. *)
Record Serial : Type := mkSerial {
  incoming : list (option Byte.byte);
  written : list bytes;
  is_open : bool;
  closes : nat
}.

(** How a computation on the port ends: it returns, it raises, or it is
    still looping when the fuel of a [while] loop is used up. *)
Inductive outcome (A : Type) : Type :=
  | Return (a : A) (s : Serial)
  | Throw (e : exn) (s : Serial)
  | Spin.
Arguments Return {A} a s.
Arguments Throw {A} e s.
Arguments Spin {A}.

Definition M (A : Type) : Type := Serial -> outcome A.

Definition ret {A} (a : A) : M A := fun s => Return a s.

Definition bind {A B} (m : M A) (k : A -> M B) : M B :=
  fun s =>
    match m s with
    | Return a s' => k a s'
    | Throw e s' => Throw e s'
    | Spin => Spin
    end.

Definition raise {A} (e : exn) : M A := fun s => Throw e s.

Definition lift {A} (r : result A) : M A :=
  match r with
  | Ok a => ret a
  | Raise e => raise e
  end.

Declare Scope serial_scope.
Delimit Scope serial_scope with serial.
Notation "x <- m ;; k" := (bind m (fun x => k))
  (at level 100, m at next level, right associativity) : serial_scope.
Notation "m ;; k" := (bind m (fun _ => k))
  (at level 100, right associativity) : serial_scope.

(** [SerialCon.read()]: at most one byte. *)
Definition read : M (option Byte.byte) :=
  fun s =>
    if is_open s then
      match incoming s with
      | [] => Return None s
      | b :: rest => Return b (mkSerial rest (written s) (is_open s) (closes s))
      end
    else Throw PortNotOpenError s.

(** [SerialCon.write(Data)] *)
Definition write (Data : bytes) : M unit :=
  fun s =>
    if is_open s then
      Return tt (mkSerial (incoming s) (written s ++ [Data]) (is_open s) (closes s))
    else Throw PortNotOpenError s.

(** [SerialCon.close()] *)
Definition close : M unit :=
  fun s => Return tt (mkSerial (incoming s) (written s) false (S (closes s))).

(** [quit()] *)
Definition quit {A} : M A := raise SystemExit.

(** ** The response framer *)

(** What [ReadChar] holds: the integer it starts with, or the [bytes]
    object of the last [read()]. *)
Inductive read_value : Type :=
  | VInt (z : Z)
  | VBytes (b : option Byte.byte).

#[global] Instance read_value_eq_dec : EqDecision read_value.
Proof. solve_decision. Defined.

(** [a != b]: an [int] and a [bytes] object are never equal. *)
Definition ne (a b : read_value) : bool := negb (bool_decide (a = b)).

(** [str(ReadChar, 'utf-8')] *)
Definition to_str (ReadChar : read_value) : result str :=
  match ReadChar with
  | VInt _ => Raise TypeError
  | VBytes b => decode_byte b
  end.

(** The [while] loop of [GetResponse]; [fuel] bounds its turns. *)
Fixpoint GetResponse_loop (fuel : nat) (ReadChar : read_value) (Response : str)
  : M str :=
  if ne ReadChar (VBytes (Some prompt_byte)) && ne ReadChar (VInt 0) then
    match fuel with
    | O => fun _ => Spin
    | S fuel' =>
        (b <- read ;;
         let ReadChar := VBytes b in
         if ne ReadChar (VBytes (Some prompt_byte)) then
           text <- lift (to_str ReadChar) ;;
           GetResponse_loop fuel' ReadChar (Response ++ text)
         else GetResponse_loop fuel' ReadChar Response)%serial
    end
  else ret Response.

Definition GetResponse (fuel : nat) (Data : bytes) : M str :=
  (write Data ;;
   Response <- GetResponse_loop fuel (VInt 1) [] ;;
   ret (replace (replace Response [CR] [LF]) [LF; LF] [LF]))%serial.

(** ** The decoder, seen group by group

    The specification describes the decoder by the groups of four
    characters it reads; these definitions say what a group is and what
    it contributes, and are compared with the loop above in the
    properties. *)

(** The payload cut into groups of four characters; a last group of fewer
    than four characters is kept. *)
Fixpoint groups (Data : str) : list str :=
  match Data with
  | [] => []
  | a :: b :: c :: d :: rest => [a; b; c; d] :: groups rest
  | short => [short]
  end.

(** The group is read as the integer zero. *)
Definition zero_group (g : str) : Prop := py_int g = Ok 0.

#[global] Instance zero_group_dec (g : str) : Decision (zero_group g).
Proof. unfold zero_group. apply _. Defined.

(** The code of a group: the table's entry for its first character, then
    the other characters. *)
Definition group_code (TroubleCodePrefix : gmap str str) (g : str) : str :=
  default [] (TroubleCodePrefix !! take 1 g) ++ drop 1 g.

(** The group can be decoded: [int] reads it, and when it is not zero
    its first character is a key of the prefix table. *)
Definition decodable (TroubleCodePrefix : gmap str str) (g : str) : Prop :=
  exists value, py_int g = Ok value
    /\ (value <> 0 -> is_Some (TroubleCodePrefix !! take 1 g)).

(** The loop of [DataToTroubleCodes] over a list of groups. *)
Fixpoint decode_groups (TroubleCodePrefix : gmap str str) (gs : list str)
    (TroubleCodes : list str) : result (list str) :=
  match gs with
  | [] => Ok TroubleCodes
  | g :: gs' =>
      match decode_group TroubleCodePrefix g TroubleCodes with
      | Ok TroubleCodes' => decode_groups TroubleCodePrefix gs' TroubleCodes'
      | Raise e => Raise e
      end
  end.

(** The claim C1 as the specification words it: the decoder returns codes
    for the payload, at most one per group, and fewer exactly when a group
    is zero. *)
Definition emits_per_group (T : gmap str str) (P : str) : Prop :=
  exists codes,
    DataToTroubleCodes T P = Ok codes
    /\ (length codes <= length P / 4)%nat
    /\ ((length codes < length P / 4)%nat <-> Exists zero_group (groups P)).

(** ** Characters [int] can read *)

(** The characters that can occur in a string [int] accepts: white space,
    a sign, a decimal digit, an underscore. *)
Definition int_char (c : ascii) : bool :=
  is_int_space c
  || bool_decide (c = "+"%char) || bool_decide (c = "-"%char)
  || bool_decide (c = "_"%char)
  || match digit_value c with Some _ => true | None => false end.

(** ** Replies, as the framer reads them *)

(** A call of [read()] that does not end a reply: it times out, or it
    delivers a byte below 128 that is not the prompt. *)
Definition quiet (r : option Byte.byte) : Prop :=
  match r with
  | Some b => b <> prompt_byte /\ (Byte.to_N b < 128)%N
  | None => True
  end.

(** The text that a sequence of calls of [read()] delivers. *)
Definition text_of (events : list (option Byte.byte)) : str :=
  concat (map (fun r => match r with
                        | Some b => [ascii_of_byte b]
                        | None => []
                        end) events).

(** The two replacements [GetResponse] applies to what it has read. *)
Definition normalise (Response : str) : str :=
  replace (replace Response [CR] [LF]) [LF; LF] [LF].

(** ** The session

    The script from the first command sent to the adapter to the end.
    Printing, which is taken to succeed, and the settle delay before each
    probe do not touch the port and are left out. *)

Definition ELM_CONNECT_SETTLE_PERIOD : Z := 5.
Definition ELM_CONNECT_TRY_COUNT : nat := 5.

(** A command line: the text and a carriage return. *)
Definition command (text : string) : bytes := blit text ++ [CR_byte].

Definition probe : bytes := command "0100".

(** [Response.find("UNABLE TO CONNECT") != -1] *)
Definition unable_to_connect (Response : str) : bool :=
  negb (find Response (lit "UNABLE TO CONNECT") =? -1).

(** The VIN text: the pruned response read as hexadecimal, each zero byte
    turned into a space, decoded as UTF-8. *)
Definition vin_text (Response : str) : result bytes :=
  (raw <- fromhex Response ;;
   decode_utf8 (map (fun b => if decide (b = x00) then x20 else b) raw))%result.

Section Session.

Variable TroubleCodePrefix : gmap str str.
Variable TroubleCodeDescriptions : gmap str str.

(** [fuel] bounds the turns of each call of [GetResponse]. *)
Variable fuel : nat.

Definition GetTroubleCodeData (OBDIImode : bytes) : M str :=
  (Response <- GetResponse fuel (OBDIImode ++ [CR_byte]) ;;
   let Response := PruneData Response 1 in
   TroubleCodes <- lift (DataToTroubleCodes TroubleCodePrefix Response) ;;
   ret (describe_all TroubleCodeDescriptions TroubleCodes))%serial.

(** Reset, the four settings and the three queries about the adapter.  A
    reply that differs from the expected one is only reported. *)
Definition setup : M unit :=
  (Response <- GetResponse fuel (command "AT Z") ;;
   Response <- GetResponse fuel (command "AT E0") ;;
   Response <- GetResponse fuel (command "AT S0") ;;
   Response <- GetResponse fuel (command "AT SP A3") ;;
   Response <- GetResponse fuel (command "AT IB 10") ;;
   Response <- GetResponse fuel (command "AT @1") ;;
   Response <- GetResponse fuel (command "AT @2") ;;
   Response <- GetResponse fuel (command "AT RV") ;;
   ret tt)%serial.

(** [while Response.find("UNABLE TO CONNECT") != -1 and TryCount > 0]:
    [TryCount], which the loop only decrements while it is positive, is a
    natural number. *)
Fixpoint connect_loop (TryCount : nat) (Response : str) : M str :=
  match TryCount with
  | S TryCount' =>
      if unable_to_connect Response then
        (Response <- GetResponse fuel probe ;;
         connect_loop TryCount' Response)%serial
      else ret Response
  | O => ret Response
  end.

(** The protocol query, the VIN and the three lists of trouble codes. *)
Definition diagnostics : M unit :=
  (Response <- GetResponse fuel (command "AT DP") ;;
   Response <- GetResponse fuel (command "0902") ;;
   let Response := PruneDataVin Response 3 in
   Response <- lift (vin_text Response) ;;
   Response <- GetTroubleCodeData (blit "03") ;;
   Response <- GetTroubleCodeData (blit "07") ;;
   Response <- GetTroubleCodeData (blit "0A") ;;
   ret tt)%serial.

Definition session : M unit :=
  (setup ;;
   Response <- connect_loop 5 (lit "UNABLE TO CONNECT") ;;
   if unable_to_connect Response then
     close ;; quit
   else
     diagnostics ;; close)%serial.

End Session.

(** [n] probes in a row that are answered, each answer containing
    ["UNABLE TO CONNECT"], take the port from [s] to [s']. *)
Inductive failed_probes (fuel : nat) : nat -> Serial -> Serial -> Prop :=
  | failed_probes_O s : failed_probes fuel 0 s s
  | failed_probes_S n s s' s'' Response :
      GetResponse fuel probe s = Return Response s' ->
      unable_to_connect Response = true ->
      failed_probes fuel n s' s'' ->
      failed_probes fuel (S n) s s''.

(** The port with the bytes [stream] still to arrive and nothing written. *)
Definition port (stream : bytes) : Serial :=
  mkSerial (map Some stream) [] true 0.

(** ** What a computation leaves untouched *)

(** The port is as open or as closed as before. *)
Definition same_lifecycle (s s' : Serial) : Prop :=
  is_open s' = is_open s /\ closes s' = closes s.

(** Moreover nothing was written. *)
Definition only_read (s s' : Serial) : Prop :=
  written s' = written s /\ same_lifecycle s s'.

(** [m] relates the port it starts from to the port it ends with by [R],
    however it ends, and does not raise [SystemExit]. *)
Definition respects (R : Serial -> Serial -> Prop) {A} (m : M A) : Prop :=
  forall s,
    match m s with
    | Return _ s' => R s s'
    | Throw e s' => R s s' /\ e <> SystemExit
    | Spin => True
    end.

(** The result is not the exception [SystemExit]. *)
Definition no_exit {A} (r : result A) : Prop :=
  match r with
  | Ok _ => True
  | Raise e => e <> SystemExit
  end.

(** ** Specification-side views of the session *)

(** The line of the report for one code, in the words of the
    specification: the code with its description, or with the placeholder
    when the description table has no entry for it. *)
Definition report_line (TroubleCodeDescriptions : gmap str str) (code : str) : str :=
  code ++ lit " : "
  ++ default (lit "[DESCRIPTION NOT FOUND]") (TroubleCodeDescriptions !! code)
  ++ [LF].

(** The port was closed, by one call of [close], between [s] and [s']. *)
Definition closed_once (s s' : Serial) : Prop :=
  is_open s' = false /\ closes s' = S (closes s).

(** The claim C10 as the specification words it: however the session
    ends, the port that was open at its start has been closed. *)
Definition released_on_exit (s : Serial) (o : outcome unit) : Prop :=
  match o with
  | Return _ s' | Throw _ s' => closed_once s s'
  | Spin => True
  end.

(** Replies of the adapter, each ended by the prompt. *)
Definition reply (text : string) : bytes :=
  blit text ++ [CR_byte; CR_byte; prompt_byte].

Definition setup_replies : bytes :=
  concat (map reply ["ELM327 v1.5"; "OK"; "OK"; "OK"; "OK"; "OBDII to RS232"; "UART"; "12.3V"]).

Definition vin_reply : bytes :=
  blit "014" ++ [CR_byte] ++ blit "0:490201574442" ++ [CR_byte]
  ++ blit "1:41423132333435" ++ [CR_byte] ++ reply "2:36373839303132".

Definition setup_commands : list bytes :=
  map command ["AT Z"; "AT E0"; "AT S0"; "AT SP A3"; "AT IB 10"; "AT @1"; "AT @2"; "AT RV"].

(** The replies, and the commands they answer, of a session in which the
    bus connects at the first probe, up to and including the VIN. *)
Definition connected_replies : bytes :=
  setup_replies ++ reply "4100BE3EA813" ++ reply "AUTO" ++ vin_reply.

Definition connected_commands : list bytes :=
  setup_commands ++ map command ["0100"; "AT DP"; "0902"].

(** Tables with one entry each. *)
Definition P0_table : gmap str str := {[ lit "0" := lit "P0" ]}.

Definition O2_table : gmap str str :=
  {[ lit "P0133" := lit "O2 Sensor Circuit Slow Response" ]}.

(** ** Loading the lookup tables

    The files are read line by line; a line is the text the file
    iterator yields, its line break included.  The characters are taken
    to be code points below 256. *)

(** [c.isspace()]: the white space [str.strip()] removes. *)
Definition is_space (c : ascii) : bool :=
  match N_of_ascii c with
  | 9 | 10 | 11 | 12 | 13 | 28 | 29 | 30 | 31 | 32 | 133 | 160 => true
  | _ => false
  end%N.

Fixpoint lstrip_space (s : str) : str :=
  match s with
  | c :: s' => if is_space c then lstrip_space s' else s
  | [] => []
  end.

(** [s.strip()] *)
Definition py_strip (s : str) : str :=
  rev (lstrip_space (rev (lstrip_space s))).

(** [ThisLine.partition(" ")[::2]]: the text before the first space and
    the text after it; the whole line and the empty string when the line
    has no space. *)
Fixpoint partition_space (ThisLine : str) : str * str :=
  match ThisLine with
  | [] => ([], [])
  | c :: rest =>
      if decide (c = " "%char) then ([], rest)
      else let '(before, after) := partition_space rest in (c :: before, after)
  end.

(** The body of the loops that fill a table. *)
Definition load_line (Table : gmap str str) (ThisLine : str) : gmap str str :=
  let '(Key, Value) := partition_space ThisLine in
  <[Key := py_strip Value]> Table.

Definition load_file (Table : gmap str str) (ThisFile : list str) : gmap str str :=
  fold_left load_line ThisFile Table.

(** [TroubleCodePrefix], from the lines of [TroubleCodePrefix.txt]. *)
Definition load_TroubleCodePrefix (ThisFile : list str) : gmap str str :=
  load_file ∅ ThisFile.

(** [TroubleCodeDescriptions], from the lines of the ISO/SAE file and then
    those of the manufacturer's file. *)
Definition load_TroubleCodeDescriptions (iso manufacturer : list str)
  : gmap str str :=
  load_file (load_file ∅ iso) manufacturer.

(** The key and the value a line stands for. *)
Definition line_key (ThisLine : str) : str := fst (partition_space ThisLine).

Definition line_value (ThisLine : str) : str :=
  py_strip (snd (partition_space ThisLine)).

(** The value of the last line of [lines] whose key is [key]. *)
Fixpoint last_value (key : str) (lines : list str) : option str :=
  match lines with
  | [] => None
  | line :: rest =>
      match last_value key rest with
      | Some value => Some value
      | None => if decide (line_key line = key) then Some (line_value line) else None
      end
  end.

(** ** What a computation writes and raises *)

(** The commands of the last phase of the session, in order. *)
Definition diagnostics_commands : list bytes :=
  map command ["AT DP"; "0902"; "03"; "07"; "0A"].

(** [o] is the outcome of a computation that has ended, by returning or by
    raising, with the port [s']. *)
Definition ended {A} (o : outcome A) (s' : Serial) : Prop :=
  (exists a, o = Return a s') \/ (exists e, o = Throw e s').

(** [m] writes the commands [cmds], in order and nothing else, when it
    returns, and some of them from the first on when it raises. *)
Definition sends (cmds : list bytes) {A} (m : M A) : Prop :=
  forall s,
    match m s with
    | Return _ s' => written s' = written s ++ cmds
    | Throw _ s' => exists l, l `prefix_of` cmds /\ written s' = written s ++ l
    | Spin => True
    end.

(** The exceptions of transmission and decoding: a byte that is not
    ASCII, text that is not a number, a key that is not in a table. *)
Definition data_error (e : exn) : Prop :=
  e = ValueError \/ e = KeyError \/ e = UnicodeDecodeError.

(** [r] raises nothing but a [data_error]. *)
Definition raises_data_error {A} (r : result A) : Prop :=
  match r with
  | Ok _ => True
  | Raise e => data_error e
  end.

(** On an open port [m] leaves the port open when it returns and raises
    nothing but a [data_error]. *)
Definition keeps_open {A} (m : M A) : Prop :=
  forall s, is_open s = true ->
    match m s with
    | Return _ s' => is_open s' = true
    | Throw e _ => data_error e
    | Spin => True
    end.

(** * Properties *)

(** ** Strings *)

Lemma slice_from_nonneg {A} (l : list A) (i : Z) :
  0 <= i -> slice_from l i = drop (Z.to_nat i) l.
Proof.
  intros Hi. unfold slice_from, slice_bound.
  destruct (Z.ltb_spec i 0); [lia | reflexivity].
Qed.

Lemma slice_to_nonneg {A} (l : list A) (j : Z) :
  0 <= j -> slice_to l j = take (Z.to_nat j) l.
Proof.
  intros Hj. unfold slice_to, slice_bound.
  destruct (Z.ltb_spec j 0); [lia | reflexivity].
Qed.

Lemma split_nonempty sep s : split sep s <> [].
Proof.
  destruct s as [|c s]; simpl; [done|].
  destruct (decide (c = sep)); [done|].
  destruct (split sep s); done.
Qed.

Lemma split_no_sep sep s : Forall (fun piece => sep ∉ piece) (split sep s).
Proof.
  induction s as [|c s IH]; simpl.
  - constructor; [apply not_elem_of_nil | constructor].
  - destruct (decide (c = sep)) as [->|Hne].
    + constructor; [apply not_elem_of_nil | exact IH].
    + destruct (split sep s) as [|piece pieces].
      * constructor; [|constructor].
        intros Hin. apply list_elem_of_singleton in Hin. congruence.
      * inversion IH as [|? ? Hp Hps]; subst.
        constructor; [|exact Hps].
        intros Hin. apply elem_of_cons in Hin as [Heq|Hin]; [congruence|done].
Qed.

Lemma join_split sep s : join sep (split sep s) = s.
Proof.
  induction s as [|c s IH]; simpl; [reflexivity|].
  destruct (decide (c = sep)) as [->|Hne].
  - pose proof (split_nonempty sep s) as Hn.
    destruct (split sep s) as [|piece pieces] eqn:E; [done|].
    simpl in *. by rewrite IH.
  - destruct (split sep s) as [|piece pieces] eqn:E.
    + by destruct (split_nonempty sep s).
    + destruct pieces as [|piece' pieces]; simpl in *; by rewrite <- IH.
Qed.

(** ** The line pruner *)

Lemma fold_left_append {A B} (f : A -> list B) (l : list A) (acc : list B) :
  fold_left (fun Response x => Response ++ f x) l acc = acc ++ concat (map f l).
Proof.
  revert acc. induction l as [|x l IH]; intros acc; simpl.
  - by rewrite app_nil_r.
  - by rewrite IH, app_assoc.
Qed.

Lemma fold_left_enumerate {A B} (step : list B -> Z * A -> list B)
    (f : Z -> A -> list B) (l : list A) (start : Z) (acc : list B) :
  (forall Response index x, step Response (index, x) = Response ++ f index x) ->
  fold_left step (enumerate_from start l) acc
  = acc ++ concat (imap (fun i x => f (start + Z.of_nat i) x) l).
Proof.
  intros Hstep. revert start acc.
  induction l as [|x l IH]; intros start acc; simpl.
  - by rewrite app_nil_r.
  - rewrite IH, Hstep, <- app_assoc, Z.add_0_r. do 3 f_equal.
    apply imap_ext. intros i y _. simpl. f_equal. lia.
Qed.

Lemma concat_no_sep (sep : ascii) (pieces : list str) :
  Forall (fun piece => sep ∉ piece) pieces -> sep ∉ concat pieces.
Proof.
  induction 1 as [|piece pieces Hp _ IH]; simpl.
  - apply not_elem_of_nil.
  - rewrite elem_of_app. tauto.
Qed.

Lemma drop_no_sep (sep : ascii) (n : nat) (pieces : list str) :
  Forall (fun piece => sep ∉ piece) pieces ->
  Forall (fun piece => sep ∉ piece) (map (drop n) pieces).
Proof.
  intros H. apply Forall_map. eapply Forall_impl; [exact H|].
  intros piece Hp Hin. apply Hp. revert Hin. apply subseteq_drop.
Qed.

(** [PruneData], for a count that is not negative, in closed form. *)
Lemma PruneData_concat (Data : str) (RemoveByteCount : Z) :
  0 <= RemoveByteCount ->
  PruneData Data RemoveByteCount
  = concat (map (drop (2 * Z.to_nat RemoveByteCount)) (split LF Data)).
Proof.
  intros Hn. unfold PruneData.
  rewrite (fold_left_append (fun Line => slice_from Line (2 * RemoveByteCount))).
  simpl. f_equal. apply map_ext. intros Line.
  rewrite slice_from_nonneg by lia. f_equal. lia.
Qed.

(** A negative count keeps the tail of each line instead of dropping a
    prefix: the closed form above needs its hypothesis. *)
Example PruneData_negative_count :
  PruneData (lit "ab4123") (-1) = lit "23".
Proof. reflexivity. Qed.

(** C6. For every response and every count [RemoveByteCount >= 0],
    [PruneData] splits the response at its line breaks (the lines contain
    no line break and, joined by line breaks, give the response back),
    drops the first [2 * RemoveByteCount] characters of every line (a
    shorter line is dropped whole) and returns the remainders concatenated
    in order, with no line break left in the result; pruning
    ["ab4123\n"] with a count of 1 gives ["4123"]. *)
Theorem PruneData_drops_line_prefixes (Data : str) (RemoveByteCount : Z) :
  0 <= RemoveByteCount ->
  let Lines := split LF Data in
  join LF Lines = Data
  /\ Forall (fun Line => LF ∉ Line) Lines
  /\ (PruneData Data RemoveByteCount
      = concat (map (drop (2 * Z.to_nat RemoveByteCount)) Lines))
  /\ (LF ∉ PruneData Data RemoveByteCount)
  /\ PruneData (lit "ab4123" ++ [LF]) 1 = lit "4123".
Proof.
  intros Hn Lines. subst Lines.
  split; [apply join_split|].
  split; [apply split_no_sep|].
  split; [by apply PruneData_concat|].
  split; [|reflexivity].
  rewrite PruneData_concat by done.
  apply concat_no_sep, drop_no_sep, split_no_sep.
Qed.

Lemma PruneData_drops_line_prefixes_witness :
  0 <= 1
  /\ (PruneData (lit "ab4123" ++ (LF :: lit "cd0007")) 1 = lit "41230007").
Proof.
  split; [lia|].
  destruct (PruneData_drops_line_prefixes (lit "ab4123" ++ (LF :: lit "cd0007")) 1)
    as (_ & _ & -> & _); [lia|].
  reflexivity.
Defined.

(** [PruneDataVin], for a count that is not negative, in closed form. *)
Lemma PruneDataVin_concat (Data : str) (RemoveByteCount : Z) :
  0 <= RemoveByteCount ->
  PruneDataVin Data RemoveByteCount
  = concat (imap (fun index Line =>
                    drop (vin_prefix_length (Z.to_nat RemoveByteCount) index) Line)
              (split LF Data)).
Proof.
  intros Hn. unfold PruneDataVin, enumerate.
  rewrite (fold_left_enumerate _
             (fun index Line =>
                if index =? 1 then slice_from Line (2 * 4)
                else if (2 <=? index) && (index <? 4) then slice_from Line 2
                else slice_from Line (2 * RemoveByteCount))).
  - simpl. f_equal. apply imap_ext. intros i Line _.
    destruct i as [|[|[|[|i]]]];
      repeat match goal with
             | |- context [?a =? ?b] => destruct (Z.eqb_spec a b)
             | |- context [?a <=? ?b] => destruct (Z.leb_spec a b)
             | |- context [?a <? ?b] => destruct (Z.ltb_spec a b)
             end; try lia;
      cbn [andb vin_prefix_length];
      rewrite slice_from_nonneg by lia; f_equal; lia.
  - intros Response index Line.
    destruct (index =? 1); [done|].
    by destruct ((2 <=? index) && (index <? 4)).
Qed.

(** [PruneDataVin] in closed form, for every count: the fixed rules of the
    lines at indices 1 to 3 do not look at the count. *)
Lemma PruneDataVin_closed_form (Data : str) (RemoveByteCount : Z) :
  PruneDataVin Data RemoveByteCount
  = concat (imap (fun index Line =>
                    match index with
                    | 1 => drop 8 Line
                    | 2 | 3 => drop 2 Line
                    | _ => slice_from Line (2 * RemoveByteCount)
                    end%nat)
              (split LF Data)).
Proof.
  unfold PruneDataVin, enumerate.
  rewrite (fold_left_enumerate _
             (fun index Line =>
                if index =? 1 then slice_from Line (2 * 4)
                else if (2 <=? index) && (index <? 4) then slice_from Line 2
                else slice_from Line (2 * RemoveByteCount))).
  - simpl. f_equal. apply imap_ext. intros i Line _.
    destruct i as [|[|[|[|i]]]];
      repeat match goal with
             | |- context [?a =? ?b] => destruct (Z.eqb_spec a b)
             | |- context [?a <=? ?b] => destruct (Z.leb_spec a b)
             | |- context [?a <? ?b] => destruct (Z.ltb_spec a b)
             end; try (exfalso; lia); cbn [andb]; try reflexivity;
      rewrite slice_from_nonneg by lia; reflexivity.
  - intros Response index Line.
    destruct (index =? 1); [done|].
    by destruct ((2 <=? index) && (index <? 4)).
Qed.

(** C4. For every response and every count, negative counts included,
    [PruneDataVin] returns the remainders of the lines concatenated in
    line order, where the remainder of the line at index 1 is the line
    without its first 8 characters whatever the count is, the remainder of
    the lines at indices 2 and 3 is the line without its first 2
    characters, and the remainder of the first line and of every line
    after index 3 is [Line[2 * RemoveByteCount:]] (a shorter line is
    dropped whole).  For a count that is not negative that last remainder
    is the line without its first [2 * RemoveByteCount] characters, so the
    numbers of characters removed are those of [vin_prefix_length].  On
    four lines of which the second is ["00aabbccddee"], eight characters
    are taken off that line for every count. *)
Theorem PruneDataVin_drops_per_line_prefixes (Data : str) (RemoveByteCount : Z) :
  PruneDataVin Data RemoveByteCount
  = concat (imap (fun index Line =>
                    match index with
                    | 1 => drop 8 Line
                    | 2 | 3 => drop 2 Line
                    | _ => slice_from Line (2 * RemoveByteCount)
                    end%nat)
              (split LF Data))
  /\ (0 <= RemoveByteCount ->
      PruneDataVin Data RemoveByteCount
      = concat (imap (fun index Line =>
                        drop (vin_prefix_length (Z.to_nat RemoveByteCount) index) Line)
                  (split LF Data)))
  /\ PruneDataVin (join LF [[]; lit "00aabbccddee"; lit "1:"; lit "2:"])
       RemoveByteCount
     = lit "ddee".
Proof.
  split; [apply PruneDataVin_closed_form|].
  split; [apply PruneDataVin_concat|].
  rewrite PruneDataVin_closed_form.
  change (split LF _) with [[]; lit "00aabbccddee"; lit "1:"; lit "2:"].
  change (imap ?f [?a; ?b; ?c; ?d]) with [f 0%nat a; f 1%nat b; f 2%nat c; f 3%nat d].
  cbn [concat]. unfold slice_from at 1. rewrite drop_nil. reflexivity.
Qed.

Lemma PruneDataVin_drops_per_line_prefixes_witness :
  0 <= 3
  /\ (PruneDataVin
        (join LF [lit "014"; lit "0:490201574442"; lit "1:41423132333435";
                  lit "2:36373839303132"; lit "xxxxxxAB"]) 3
      = lit "574442" ++ lit "41423132333435" ++ lit "36373839303132" ++ lit "AB")
  /\ (PruneDataVin
        (join LF [lit "014"; lit "0:490201574442"; lit "1:41423132333435";
                  lit "2:36373839303132"; lit "xxxxxxAB"]) (-1)
      = lit "14" ++ lit "574442" ++ lit "41423132333435" ++ lit "36373839303132"
        ++ lit "AB").
Proof.
  split; [lia|]. split.
  - destruct (PruneDataVin_drops_per_line_prefixes
                (join LF [lit "014"; lit "0:490201574442"; lit "1:41423132333435";
                          lit "2:36373839303132"; lit "xxxxxxAB"]) 3) as (_ & H & _).
    rewrite H by lia. reflexivity.
  - destruct (PruneDataVin_drops_per_line_prefixes
                (join LF [lit "014"; lit "0:490201574442"; lit "1:41423132333435";
                          lit "2:36373839303132"; lit "xxxxxxAB"]) (-1)) as (-> & _ & _).
    reflexivity.
Defined.

(** ** [int] *)

Example py_int_examples :
  py_int (lit "0133") = Ok 133 /\ py_int (lit "0000") = Ok 0
  /\ py_int (lit "01A3") = Raise ValueError /\ py_int (lit "1_23") = Ok 123
  /\ py_int (lit "+000") = Ok 0 /\ py_int (lit " 12 ") = Ok 12
  /\ py_int (lit "_12") = Raise ValueError /\ py_int (lit "1__2") = Raise ValueError
  /\ py_int (lit "12_") = Raise ValueError /\ py_int (lit "0x10") = Raise ValueError
  /\ py_int (lit "+ 1") = Raise ValueError /\ py_int (lit "-12") = Ok (-12).
Proof. repeat split; reflexivity. Qed.

(** ** The decoder *)

Lemma groups_step (Data : str) :
  Data <> [] -> groups Data = take 4 Data :: groups (drop 4 Data).
Proof.
  destruct Data as [|a [|b [|c [|d rest]]]]; intros H; try done.
Qed.

Lemma groups_concat (Data : str) : concat (groups Data) = Data.
Proof.
  induction Data as [Data IH] using (induction_ltof1 _ (@length ascii)).
  unfold ltof in IH.
  destruct Data as [|a [|b [|c [|d rest]]]]; try reflexivity.
  cbn [groups concat app]. rewrite IH; [reflexivity | simpl; lia].
Qed.

Lemma groups_aligned (Data : str) (n : nat) :
  length Data = (4 * n)%nat ->
  length (groups Data) = n /\ Forall (fun g => length g = 4%nat) (groups Data).
Proof.
  revert Data. induction n as [|n IH]; intros Data Hlen.
  - destruct Data; [split; [done | constructor] | simpl in Hlen; lia].
  - destruct Data as [|a [|b [|c [|d rest]]]]; simpl in Hlen; try lia.
    destruct (IH rest) as [Hn Hall]; [lia|].
    cbn [groups]. split; [simpl; lia | by constructor].
Qed.

Lemma groups_app (pre post : str) (n : nat) :
  length pre = (4 * n)%nat -> groups (pre ++ post) = groups pre ++ groups post.
Proof.
  revert pre. induction n as [|n IH]; intros pre Hlen.
  - destruct pre; [done | simpl in Hlen; lia].
  - destruct pre as [|a [|b [|c [|d rest]]]]; simpl in Hlen; try lia.
    cbn [groups app]. rewrite IH by lia. reflexivity.
Qed.

Lemma DataToTroubleCodes_loop_groups T (Data : str) (TroubleCodes : list str) :
  DataToTroubleCodes_loop T Data TroubleCodes
  = decode_groups T (groups Data) TroubleCodes.
Proof.
  funelim (DataToTroubleCodes_loop T Data TroubleCodes).
  - reflexivity.
  - rewrite groups_step by done. cbn [decode_groups].
    rewrite slice_to_nonneg by lia. change (Z.to_nat 4) with 4%nat.
    destruct (decode_group T (take 4 (c :: Data')) TroubleCodes) as [codes|e] eqn:E;
      [|reflexivity].
    rewrite H. by rewrite slice_from_nonneg by lia.
Qed.

Lemma py_int_nil : py_int [] = Raise ValueError.
Proof. reflexivity. Qed.

Lemma decode_group_decodable T (g : str) (TroubleCodes : list str) :
  decodable T g ->
  decode_group T g TroubleCodes
  = Ok (if decide (zero_group g) then TroubleCodes
        else TroubleCodes ++ [group_code T g]).
Proof.
  intros (value & Hint & Hkey).
  assert (zero_group g <-> value = 0) as Hzero.
  { unfold zero_group. rewrite Hint. split; congruence. }
  unfold decode_group, group_code. rewrite Hint. cbn [result_bind].
  destruct (decide (value <> 0)) as [Hnz|Hz].
  - destruct (Hkey Hnz) as [prefix Hprefix].
    destruct g as [|c g]; [by rewrite py_int_nil in Hint|].
    cbn [first_char result_bind]. unfold dict_get.
    change (take 1 (c :: g)) with [c] in Hprefix |- *. rewrite Hprefix.
    cbn [result_bind default]. rewrite slice_from_nonneg by lia.
    rewrite decide_False by tauto. reflexivity.
  - rewrite decide_True by (apply Hzero; lia). reflexivity.
Qed.

Lemma decode_group_returns T (g : str) (TroubleCodes codes : list str) :
  decode_group T g TroubleCodes = Ok codes -> decodable T g.
Proof.
  unfold decode_group, decodable. intros H.
  destruct (py_int g) as [value|e] eqn:Hint; [|done].
  exists value. split; [done|]. intros Hnz.
  cbn [result_bind] in H. rewrite decide_True in H by done.
  destruct g as [|c g]; [by rewrite py_int_nil in Hint|].
  cbn [first_char result_bind] in H. unfold dict_get in H.
  change (take 1 (c :: g)) with [c].
  destruct (T !! [c]); [by eexists | done].
Qed.

Lemma decode_groups_app T (gs1 gs2 : list str) (TroubleCodes : list str) :
  decode_groups T (gs1 ++ gs2) TroubleCodes
  = result_bind (decode_groups T gs1 TroubleCodes) (decode_groups T gs2).
Proof.
  revert TroubleCodes. induction gs1 as [|g gs1 IH]; intros acc; simpl.
  - reflexivity.
  - destruct (decode_group T g acc); [apply IH | reflexivity].
Qed.

Lemma decode_groups_decodable T (gs : list str) (TroubleCodes : list str) :
  Forall (decodable T) gs ->
  decode_groups T gs TroubleCodes
  = Ok (TroubleCodes
        ++ map (group_code T) (filter (fun g => ~ zero_group g) gs)).
Proof.
  intros Hall. revert TroubleCodes.
  induction Hall as [|g gs Hg _ IH]; intros acc; simpl.
  - by rewrite app_nil_r.
  - rewrite decode_group_decodable by done.
    destruct (decide (zero_group g)) as [Hz|Hnz].
    + rewrite filter_cons_False by tauto. apply IH.
    + rewrite filter_cons_True by done. rewrite IH. simpl.
      by rewrite <- app_assoc.
Qed.

Lemma decode_groups_returns T (gs : list str) (TroubleCodes codes : list str) :
  decode_groups T gs TroubleCodes = Ok codes -> Forall (decodable T) gs.
Proof.
  revert TroubleCodes. induction gs as [|g gs IH]; intros acc H; simpl in H.
  - constructor.
  - destruct (decode_group T g acc) as [acc'|e] eqn:E; [|done].
    constructor; [by eapply decode_group_returns | by eapply IH].
Qed.

Lemma decode_groups_raises T (gs1 gs2 : list str) (g : str)
    (TroubleCodes : list str) (e : exn) :
  Forall (decodable T) gs1 ->
  (forall acc, decode_group T g acc = Raise e) ->
  decode_groups T (gs1 ++ g :: gs2) TroubleCodes = Raise e.
Proof.
  intros H1 Hg. rewrite decode_groups_app, decode_groups_decodable by done.
  simpl. by rewrite Hg.
Qed.

Lemma filter_length_lt {A} (P : A -> Prop) `{forall x, Decision (P x)} (l : list A) :
  (length (filter P l) < length l)%nat <-> Exists (fun x => ~ P x) l.
Proof.
  induction l as [|x l IH].
  - simpl. split; [lia | by inversion 1].
  - pose proof (length_filter P l) as Hle.
    destruct (decide (P x)) as [Hx|Hx].
    + rewrite filter_cons_True by done. simpl. rewrite Exists_cons.
      split; [intros Hlt; right; apply IH; lia|].
      intros [Hn|Hex]; [done|]. apply IH in Hex. lia.
    + rewrite filter_cons_False by done. simpl. rewrite Exists_cons.
      split; [by left | lia].
Qed.

(** [DataToTroubleCodes] reads the groups in order and stops at the first
    group that raises. *)
Lemma DataToTroubleCodes_groups T (Data : str) :
  DataToTroubleCodes T Data = decode_groups T (groups Data) [].
Proof. apply DataToTroubleCodes_loop_groups. Qed.

(** C1, as stated, fails: with the prefix table [{'0': 'P'}] the payload
    ["1234"] has one group, which is not zero, and the decoder raises
    [KeyError] instead of returning codes. *)
Lemma emits_per_group_fails_on_unmapped_digit :
  length (lit "1234") = 4%nat
  /\ DataToTroubleCodes {[ lit "0" := lit "P" ]} (lit "1234") = Raise KeyError
  /\ ~ emits_per_group {[ lit "0" := lit "P" ]} (lit "1234").
Proof.
  split; [reflexivity|]. split; [reflexivity|].
  intros (codes & H & _). discriminate H.
Qed.

(** C1, amended. For every payload [P] of length [4 * n] whose groups can
    all be decoded ([int] reads each group, and each group that is not
    zero starts with a key of the prefix table), the decoder reads the [n]
    groups of four characters that make up [P], in order, and returns the
    codes of the groups that are not zero: at most [n] codes, and fewer
    than [n] exactly when some group is zero. *)
Theorem DataToTroubleCodes_one_code_per_nonzero_group
    (T : gmap str str) (P : str) (n : nat) :
  length P = (4 * n)%nat ->
  Forall (decodable T) (groups P) ->
  exists codes,
    DataToTroubleCodes T P = Ok codes
    /\ length (groups P) = n
    /\ Forall (fun g => length g = 4%nat) (groups P)
    /\ concat (groups P) = P
    /\ codes = map (group_code T) (filter (fun g => ~ zero_group g) (groups P))
    /\ (length codes <= n)%nat
    /\ ((length codes < n)%nat <-> Exists zero_group (groups P)).
Proof.
  intros Hlen Hall.
  destruct (groups_aligned P n Hlen) as [Hn Hfour].
  eexists. split.
  { rewrite DataToTroubleCodes_groups, decode_groups_decodable by done.
    reflexivity. }
  split; [done|]. split; [done|]. split; [apply groups_concat|].
  split; [reflexivity|]. cbn [app]. rewrite length_map.
  split.
  - rewrite <- Hn. apply length_filter.
  - rewrite <- Hn at 1. rewrite filter_length_lt.
    split; intros Hex; (eapply Exists_impl; [exact Hex|]); intros g Hg.
    + by destruct (decide (zero_group g)).
    + tauto.
Qed.

Lemma DataToTroubleCodes_one_code_per_nonzero_group_witness :
  exists codes,
    DataToTroubleCodes {[ lit "0" := lit "P" ]} (lit "013300000171") = Ok codes
    /\ length codes = 2%nat.
Proof.
  destruct (DataToTroubleCodes_one_code_per_nonzero_group
              {[ lit "0" := lit "P" ]} (lit "013300000171") 3)
    as (codes & Hrun & _ & _ & _ & Hcodes & _).
  - reflexivity.
  - repeat constructor; eexists; (split; [reflexivity|]); intros _;
      eexists; reflexivity.
  - exists codes. split; [exact Hrun|]. rewrite Hcodes. reflexivity.
Defined.

(** C3. A group ["0000"] never produces a code: an aligned ["0000"] can be
    taken out of any payload without changing what the decoder returns or
    raises.  With the prefix table [{'0': 'P'}] the payload ["0133"]
    gives exactly the code ["P133"], the table's letter for the first
    character followed by the other three.  Whenever the decoder returns,
    the codes are those of the groups that are not zero, in order: a code
    is emitted only for a group whose integer value is not zero. *)
Theorem DataToTroubleCodes_skips_zero_groups :
  (forall (T : gmap str str) (pre post : str) (n : nat),
      length pre = (4 * n)%nat ->
      DataToTroubleCodes T (pre ++ lit "0000" ++ post)
      = DataToTroubleCodes T (pre ++ post))
  /\ DataToTroubleCodes {[ lit "0" := lit "P" ]} (lit "0133") = Ok [lit "P133"]
  /\ (forall (T : gmap str str) (Data : str) (codes : list str),
         DataToTroubleCodes T Data = Ok codes ->
         let emitting := filter (fun g => ~ zero_group g) (groups Data) in
         codes = map (group_code T) emitting
         /\ Forall (fun g => exists value, py_int g = Ok value /\ value <> 0) emitting).
Proof.
  split; [|split].
  - intros T pre post n Hlen.
    rewrite !DataToTroubleCodes_groups, !(groups_app pre _ n) by done.
    rewrite (groups_app (lit "0000") post 1) by reflexivity.
    rewrite !decode_groups_app.
    destruct (decode_groups T (groups pre) []) as [acc|e]; reflexivity.
  - reflexivity.
  - intros T Data codes Hrun emitting.
    rewrite DataToTroubleCodes_groups in Hrun.
    pose proof (decode_groups_returns _ _ _ _ Hrun) as Hall.
    rewrite decode_groups_decodable in Hrun by done.
    split; [by inversion Hrun|].
    apply Forall_forall. intros g Hg. subst emitting.
    apply list_elem_of_filter in Hg as [Hnz Hin].
    rewrite Forall_forall in Hall.
    destruct (Hall g Hin) as (value & Hint & _).
    exists value. split; [done|].
    intros ->. by apply Hnz.
Qed.

Lemma DataToTroubleCodes_skips_zero_groups_witness :
  DataToTroubleCodes {[ lit "0" := lit "P" ]} (lit "0133" ++ lit "0000" ++ lit "0171")
  = Ok [lit "P133"; lit "P171"]
  /\ Forall (fun g => exists value, py_int g = Ok value /\ value <> 0)
       [lit "0133"; lit "0171"].
Proof.
  destruct DataToTroubleCodes_skips_zero_groups as (Hskip & _ & Honly).
  split.
  - rewrite (Hskip _ (lit "0133") (lit "0171") 1%nat); reflexivity.
  - apply (Honly {[ lit "0" := lit "P" ]} (lit "01330171")
             [lit "P133"; lit "P171"]).
    reflexivity.
Defined.

(** A group that [int] reads as a non-zero integer and whose first
    character is not a key of the prefix table makes the decoder raise
    [KeyError], a [LookupError], whatever follows it. *)
Lemma DataToTroubleCodes_unmapped_digit T (pre g post : str) (n : nat) (value : Z) :
  length pre = (4 * n)%nat ->
  Forall (decodable T) (groups pre) ->
  length g = 4%nat ->
  py_int g = Ok value -> value <> 0 ->
  T !! take 1 g = None ->
  DataToTroubleCodes T (pre ++ g ++ post) = Raise KeyError
  /\ is_LookupError KeyError = true.
Proof.
  intros Hpre Hall Hg Hint Hnz Hkey. split; [|reflexivity].
  rewrite DataToTroubleCodes_groups, (groups_app pre _ n) by done.
  rewrite (groups_app g post 1) by done.
  destruct g as [|a [|b [|c [|d [|]]]]]; try done.
  cbn [groups app]. apply decode_groups_raises; [done|].
  intros acc. unfold decode_group. rewrite Hint. cbn [result_bind].
  rewrite decide_True by done. cbn [first_char result_bind].
  unfold dict_get. change (take 1 [a; b; c; d]) with [a] in Hkey.
  by rewrite Hkey.
Qed.

(** C9, at the failing input: with the prefix table [{'0': 'P'}] the group
    ["C100"] is not zero and its first hexadecimal digit, [C], is not a
    key of the table, and the decoder raises [ValueError], which is not a
    [LookupError]: [int] reads the group in base ten and rejects the
    digit [C] before the table is consulted. *)
Theorem DataToTroubleCodes_hex_group_raises_ValueError :
  ({[ lit "0" := lit "P" ]} : gmap str str) !! lit "C" = None
  /\ DataToTroubleCodes {[ lit "0" := lit "P" ]} (lit "C100") = Raise ValueError
  /\ is_LookupError ValueError = false.
Proof. repeat split; reflexivity. Qed.

(** ** The framer *)

Lemma replace_char (s : str) (a b : ascii) :
  replace s [a] [b] = map (fun c => if decide (c = a) then b else c) s.
Proof.
  unfold replace. induction s as [|c s IH]; [reflexivity|].
  cbn [replace_from starts_with map length].
  replace (starts_with [] s) with true by (by destruct s).
  destruct (decide (c = a)) as [->|Hne].
  - rewrite bool_decide_eq_true_2 by done. cbn. by rewrite IH.
  - rewrite bool_decide_eq_false_2 by congruence. cbn. by rewrite IH.
Qed.

(** After the first replacement no carriage return is left. *)
Lemma replace_CR_LF (s : str) : CR ∉ replace s [CR] [LF].
Proof.
  rewrite replace_char. intros Hin.
  apply list_elem_of_fmap in Hin as (c & Hc & _).
  destruct (decide (c = CR)); [discriminate Hc | congruence].
Qed.

(** How the loop of [GetResponse] runs on a waiting port, one [read] at a
    time. *)
Lemma GetResponse_loop_step (fuel : nat) (ReadChar : read_value) (Response : str)
    (s : Serial) :
  is_open s = true ->
  ne ReadChar (VBytes (Some prompt_byte)) && ne ReadChar (VInt 0) = true ->
  GetResponse_loop (S fuel) ReadChar Response s
  = match incoming s with
    | [] => GetResponse_loop fuel (VBytes None) Response s
    | b :: rest =>
        let s' := mkSerial rest (written s) (is_open s) (closes s) in
        if ne (VBytes b) (VBytes (Some prompt_byte)) then
          match decode_byte b with
          | Ok text => GetResponse_loop fuel (VBytes b) (Response ++ text) s'
          | Raise e => Throw e s'
          end
        else GetResponse_loop fuel (VBytes b) Response s'
    end.
Proof.
  intros Hopen Hgo. cbn [GetResponse_loop]. rewrite Hgo.
  unfold bind at 1, read. rewrite Hopen.
  destruct (incoming s) as [|b rest].
  - change (ne (VBytes None) (VBytes (Some prompt_byte))) with true.
    unfold bind, lift, to_str, decode_byte, ret. by rewrite app_nil_r.
  - destruct (ne (VBytes b) (VBytes (Some prompt_byte))); [|reflexivity].
    unfold bind, lift, to_str. by destruct (decode_byte b).
Qed.

(** A stream with no prompt in it, made of time-outs and of bytes below
    128, keeps the loop turning for ever: the fuel always runs out. *)
Lemma GetResponse_loop_spins (fuel : nat) (ReadChar : read_value)
    (Response : str) (s : Serial) :
  is_open s = true ->
  ne ReadChar (VBytes (Some prompt_byte)) && ne ReadChar (VInt 0) = true ->
  Forall (fun r => match r with
                   | Some b => b <> prompt_byte /\ (Byte.to_N b < 128)%N
                   | None => True
                   end) (incoming s) ->
  GetResponse_loop fuel ReadChar Response s = Spin.
Proof.
  revert ReadChar Response s.
  induction fuel as [|fuel IH]; intros ReadChar Response s Hopen Hgo Hquiet.
  - cbn [GetResponse_loop]. by rewrite Hgo.
  - rewrite GetResponse_loop_step by done.
    destruct s as [inc w o c]. cbn [incoming written is_open closes] in *.
    destruct Hquiet as [|r rest Hr Hrest].
    + by apply IH.
    + destruct r as [b|].
      * destruct Hr as [Hb Hascii].
        assert (ne (VBytes (Some b)) (VBytes (Some prompt_byte)) = true) as Hne.
        { unfold ne. rewrite bool_decide_eq_false_2; [done | congruence]. }
        rewrite Hne. unfold decode_byte.
        apply N.ltb_lt in Hascii. rewrite Hascii.
        apply IH; [done | by rewrite Hne | done].
      * cbn. apply IH; done.
Qed.

(** C2, at the failing input: the bytes [O] and [K] arrive and then every
    [read()] times out with [b''] before any prompt; [GetResponse] does
    not return the accumulated ["OK"] but stays in its loop, whatever
    the number of turns allowed, because [b'' != 0] holds for ever. *)
Theorem GetResponse_spins_after_timeout (fuel : nat) (Data : bytes) :
  GetResponse fuel Data (port (blit "OK")) = Spin.
Proof.
  unfold GetResponse, bind, write, port. cbn [is_open].
  rewrite GetResponse_loop_spins; [reflexivity | reflexivity | reflexivity |].
  cbn. repeat constructor; discriminate.
Qed.

(** A time-out in the middle of a reply does not end the loop either: the
    bytes that arrive after it are still read. *)
Example GetResponse_reads_past_timeout (fuel : nat) (Data : bytes) :
  GetResponse (4 + fuel) Data (mkSerial [Some x4f; None; Some x4b; Some x3e] [] true 0)
  = Return (lit "OK") (mkSerial [] [Data] true 0).
Proof. destruct fuel; reflexivity. Qed.

(** C5. On the byte stream [b"OK\r\r>"] the loop accumulates ["OK\r\r"],
    the prompt left out; replacing the carriage returns gives
    ["OK\n\n"], collapsing the doubled line break gives ["OK\n"], and that
    is what [GetResponse] returns, with the stream consumed up to and
    including the prompt. *)
Theorem GetResponse_frames_OK (fuel : nat) (Data : bytes)
    (rest : list (option Byte.byte)) (log : list bytes) (n : nat) :
  let stream := blit "OK" ++ [CR_byte; CR_byte; prompt_byte] in
  let s := mkSerial (map Some stream ++ rest) log true n in
  GetResponse_loop (5 + fuel) (VInt 1) [] s
  = Return (lit "OK" ++ [CR; CR]) (mkSerial rest log true n)
  /\ replace (lit "OK" ++ [CR; CR]) [CR] [LF] = lit "OK" ++ [LF; LF]
  /\ replace (lit "OK" ++ [LF; LF]) [LF; LF] [LF] = lit "OK" ++ [LF]
  /\ GetResponse (5 + fuel) Data s
     = Return (lit "OK" ++ [LF]) (mkSerial rest (log ++ [Data]) true n).
Proof.
  intros stream s. subst stream s.
  repeat split; try reflexivity; destruct fuel; reflexivity.
Qed.

(** ** Frame properties of the port operations *)

Section Respects.

Variable R : Serial -> Serial -> Prop.
Hypothesis R_refl : forall s, R s s.
Hypothesis R_trans : forall s1 s2 s3, R s1 s2 -> R s2 s3 -> R s1 s3.

Lemma respects_ret {A} (a : A) : respects R (ret a).
Proof. intros s. apply R_refl. Qed.

Lemma respects_spin {A} : respects R (fun _ => @Spin A).
Proof. by intros s. Qed.

Lemma respects_lift {A} (r : result A) : no_exit r -> respects R (lift r).
Proof. intros Hr s. destruct r; cbn; [apply R_refl | split; [apply R_refl | done]]. Qed.

Lemma respects_bind {A B} (m : M A) (k : A -> M B) :
  respects R m -> (forall a, respects R (k a)) -> respects R (bind m k).
Proof.
  intros Hm Hk s. unfold bind. specialize (Hm s).
  destruct (m s) as [a s'|e s'|]; [|done|done].
  specialize (Hk a s').
  destruct (k a s') as [b s''|e s''|]; [|split; [|tauto]|done];
    eapply R_trans; try exact Hm; tauto.
Qed.

End Respects.

Lemma same_lifecycle_refl s : same_lifecycle s s.
Proof. by split. Qed.

Lemma same_lifecycle_trans s1 s2 s3 :
  same_lifecycle s1 s2 -> same_lifecycle s2 s3 -> same_lifecycle s1 s3.
Proof. unfold same_lifecycle. intros [? ?] [? ?]. split; congruence. Qed.

Lemma only_read_refl s : only_read s s.
Proof. by repeat split. Qed.

Lemma only_read_trans s1 s2 s3 :
  only_read s1 s2 -> only_read s2 s3 -> only_read s1 s3.
Proof.
  unfold only_read, same_lifecycle. intros (? & ? & ?) (? & ? & ?).
  repeat split; congruence.
Qed.

Lemma respects_weaken {A} (m : M A) :
  respects only_read m -> respects same_lifecycle m.
Proof.
  intros Hm s. specialize (Hm s). unfold only_read in Hm.
  destruct (m s); tauto.
Qed.

Lemma respects_read : respects only_read read.
Proof.
  intros s. unfold read. destruct (is_open s) eqn:Hopen.
  - destruct (incoming s); [apply only_read_refl|].
    by repeat split.
  - split; [apply only_read_refl | done].
Qed.

Lemma respects_write (Data : bytes) : respects same_lifecycle (write Data).
Proof.
  intros s. unfold write. destruct (is_open s) eqn:Hopen.
  - by split.
  - split; [apply same_lifecycle_refl | done].
Qed.

Lemma no_exit_decode_byte b : no_exit (decode_byte b).
Proof. destruct b as [x|]; [|done]. unfold decode_byte. by case_match. Qed.

Lemma no_exit_to_str v : no_exit (to_str v).
Proof. destruct v; [done | apply no_exit_decode_byte]. Qed.

Lemma respects_GetResponse_loop (fuel : nat) (ReadChar : read_value)
    (Response : str) :
  respects only_read (GetResponse_loop fuel ReadChar Response).
Proof.
  revert ReadChar Response. induction fuel as [|fuel IH]; intros ReadChar Response;
    cbn [GetResponse_loop]; case_match;
    try (apply respects_ret, only_read_refl); try apply respects_spin.
  apply respects_bind; [apply only_read_trans | apply respects_read |].
  intros b. case_match; [|apply IH].
  apply respects_bind; [apply only_read_trans | | intros text; apply IH].
  apply respects_lift; [apply only_read_refl | apply no_exit_to_str].
Qed.

Lemma respects_GetResponse (fuel : nat) (Data : bytes) :
  respects same_lifecycle (GetResponse fuel Data).
Proof.
  unfold GetResponse.
  apply respects_bind; [apply same_lifecycle_trans | apply respects_write |].
  intros _. apply respects_bind; [apply same_lifecycle_trans | |].
  - apply respects_weaken, respects_GetResponse_loop.
  - intros Response. apply respects_ret, same_lifecycle_refl.
Qed.

(** A call of [GetResponse] that returns has found the port open and has
    written its command, and nothing else. *)
Lemma GetResponse_returns (fuel : nat) (Data : bytes) (s s' : Serial)
    (Response : str) :
  GetResponse fuel Data s = Return Response s' ->
  is_open s = true /\ written s' = written s ++ [Data] /\ same_lifecycle s s'.
Proof.
  unfold GetResponse, bind at 1, write. intros H.
  destruct (is_open s) eqn:Hopen; [|done]. split; [done|].
  unfold bind in H.
  pose proof (respects_GetResponse_loop fuel (VInt 1) []
                (mkSerial (incoming s) (written s ++ [Data]) true (closes s))) as Hloop.
  destruct (GetResponse_loop _ _ _ _) as [text s1| |]; [|done|done].
  unfold ret in H. injection H as _ <-.
  destruct Hloop as (Hw & Ho & Hc). cbn in *.
  repeat split; congruence.
Qed.

(** ** The exceptions of the pure steps *)

Lemma no_exit_py_int (s : str) : no_exit (py_int s).
Proof. unfold py_int. repeat case_match; done. Qed.

Lemma no_exit_decode_group T (g : str) (TroubleCodes : list str) :
  no_exit (decode_group T g TroubleCodes).
Proof.
  unfold decode_group. pose proof (no_exit_py_int g) as Hint.
  destruct (py_int g) as [value|e]; [|done]. cbn [result_bind].
  case_match; [|done].
  destruct g as [|c g]; [done|]. cbn [first_char result_bind].
  unfold dict_get. by case_match.
Qed.

Lemma no_exit_decode_groups T (gs : list str) (TroubleCodes : list str) :
  no_exit (decode_groups T gs TroubleCodes).
Proof.
  revert TroubleCodes. induction gs as [|g gs IH]; intros acc; simpl; [done|].
  pose proof (no_exit_decode_group T g acc) as Hg.
  destruct (decode_group T g acc); [apply IH | done].
Qed.

Lemma no_exit_DataToTroubleCodes T (Data : str) :
  no_exit (DataToTroubleCodes T Data).
Proof. rewrite DataToTroubleCodes_groups. apply no_exit_decode_groups. Qed.

Lemma no_exit_fromhex_from (top : option N) (s : str) :
  no_exit (fromhex_from top s).
Proof.
  revert top. induction s as [|c s IH]; intros [t|]; simpl; try done.
  - case_match; [|done]. specialize (IH None).
    by destruct (fromhex_from None s).
  - repeat case_match; try done; apply IH.
Qed.

Lemma no_exit_vin_text (Response : str) : no_exit (vin_text Response).
Proof.
  unfold vin_text, fromhex. pose proof (no_exit_fromhex_from None Response) as H.
  destruct (fromhex_from None Response); [|done].
  cbn [result_bind]. unfold decode_utf8. by case_match.
Qed.

(** ** The phases of the session *)

Create HintDb frame.

#[local] Hint Resolve same_lifecycle_refl same_lifecycle_trans
  respects_ret respects_lift respects_bind respects_GetResponse
  no_exit_DataToTroubleCodes no_exit_vin_text : frame.

Lemma respects_GetTroubleCodeData T D fuel (OBDIImode : bytes) :
  respects same_lifecycle (GetTroubleCodeData T D fuel OBDIImode).
Proof. unfold GetTroubleCodeData. eauto 10 with frame. Qed.

Lemma respects_setup fuel : respects same_lifecycle (setup fuel).
Proof. unfold setup. eauto 30 with frame. Qed.

Lemma respects_connect_loop fuel (TryCount : nat) (Response : str) :
  respects same_lifecycle (connect_loop fuel TryCount Response).
Proof.
  revert Response. induction TryCount as [|TryCount IH]; intros Response;
    cbn [connect_loop]; [|case_match]; eauto with frame.
Qed.

#[local] Hint Resolve respects_GetTroubleCodeData : frame.

Lemma respects_diagnostics T D fuel :
  respects same_lifecycle (diagnostics T D fuel).
Proof. unfold diagnostics. eauto 30 with frame. Qed.

(** However the session ends, the port has been closed once, by the
    script, exactly when the end is the end of the script or [quit()]. *)
Lemma session_outcome T D fuel (s0 : Serial) :
  match session T D fuel s0 with
  | Return _ s' => closed_once s0 s'
  | Throw e s' =>
      if decide (e = SystemExit) then closed_once s0 s' else same_lifecycle s0 s'
  | Spin => True
  end.
Proof.
  unfold session. unfold bind at 1.
  pose proof (respects_setup fuel s0) as H1.
  destruct (setup fuel s0) as [[] s1|e s1|]; [| |done].
  2:{ rewrite decide_False by tauto. tauto. }
  unfold bind at 1.
  pose proof (respects_connect_loop fuel 5 (lit "UNABLE TO CONNECT") s1) as H2.
  destruct (connect_loop fuel 5 _ s1) as [Response s2|e s2|]; [| |done].
  2:{ rewrite decide_False by tauto. destruct H2 as [H2 _].
      eauto using same_lifecycle_trans. }
  pose proof (same_lifecycle_trans _ _ _ H1 H2) as [Ho Hc].
  destruct (unable_to_connect Response).
  - cbn. split; cbn; congruence.
  - unfold bind at 1.
    pose proof (respects_diagnostics T D fuel s2) as H3.
    destruct (diagnostics T D fuel s2) as [[] s3|e s3|]; [| |done].
    + destruct H3 as [Ho3 Hc3]. cbn. split; cbn; congruence.
    + rewrite decide_False by tauto. destruct H3 as [[Ho3 Hc3] _].
      split; congruence.
Qed.

(** ** The connection retry loop *)

Lemma failed_probes_effect fuel (n : nat) (s s' : Serial) :
  failed_probes fuel n s s' ->
  written s' = written s ++ replicate n probe /\ same_lifecycle s s'.
Proof.
  induction 1 as [s|n s s1 s2 Response Hrun Hunable _ [IHw IHl]].
  - split; [by rewrite app_nil_r | apply same_lifecycle_refl].
  - apply GetResponse_returns in Hrun as (_ & Hw & Hl).
    split; [|by eapply same_lifecycle_trans].
    rewrite IHw, Hw, <- app_assoc. reflexivity.
Qed.

(** While the probes keep failing the loop sends one probe per try and
    stops when the tries are used up, with a failing response in hand. *)
Lemma connect_loop_exhausts fuel (n : nat) (s s' : Serial) (Response : str) :
  failed_probes fuel n s s' ->
  unable_to_connect Response = true ->
  exists Response',
    connect_loop fuel n Response s = Return Response' s'
    /\ unable_to_connect Response' = true.
Proof.
  intros Hprobes. revert Response.
  induction Hprobes as [s|n s s1 s2 Response1 Hrun Hunable1 _ IH];
    intros Response Hunable.
  - exists Response. by split.
  - cbn [connect_loop]. rewrite Hunable. unfold bind. rewrite Hrun.
    by apply IH.
Qed.

(** C7. When the eight exchanges of the set-up have been answered and each
    of the following five probes is answered by a response that contains
    ["UNABLE TO CONNECT"], the session ends by [quit()] (the state
    [Failed]) with the port closed by one call of [close]; the log of
    what was written is the set-up followed by exactly
    [ELM_CONNECT_TRY_COUNT = 5] probes, so nothing is sent after the last
    probe. *)
Theorem session_fails_after_five_probes T D fuel (s0 s1 s2 : Serial) :
  setup fuel s0 = Return tt s1 ->
  failed_probes fuel ELM_CONNECT_TRY_COUNT s1 s2 ->
  session T D fuel s0
  = Throw SystemExit
      (mkSerial (incoming s2)
         (written s1 ++ replicate ELM_CONNECT_TRY_COUNT probe)
         false (S (closes s0)))
  /\ ELM_CONNECT_TRY_COUNT = 5%nat.
Proof.
  intros Hsetup Hprobes. split; [|reflexivity].
  destruct (connect_loop_exhausts fuel _ s1 s2 (lit "UNABLE TO CONNECT") Hprobes)
    as (Response & Hloop & Hunable); [reflexivity|].
  destruct (failed_probes_effect _ _ _ _ Hprobes) as (Hw & Ho & Hc).
  pose proof (respects_setup fuel s0) as Hs. rewrite Hsetup in Hs.
  destruct Hs as [_ Hc0].
  unfold session, bind. rewrite Hsetup.
  change 5%nat with ELM_CONNECT_TRY_COUNT. rewrite Hloop, Hunable.
  cbn. rewrite Hw. do 2 f_equal. congruence.
Qed.

Lemma session_fails_after_five_probes_witness :
  session ∅ ∅ 40
    (port (setup_replies ++ concat (replicate 5 (reply "UNABLE TO CONNECT"))))
  = Throw SystemExit
      (mkSerial [] (setup_commands ++ replicate 5 probe) false 1).
Proof.
  destruct (session_fails_after_five_probes ∅ ∅ 40
              (port (setup_replies ++ concat (replicate 5 (reply "UNABLE TO CONNECT"))))
              (mkSerial (map Some (concat (replicate 5 (reply "UNABLE TO CONNECT"))))
                 setup_commands true 0)
              (mkSerial [] (setup_commands ++ replicate 5 probe) true 0))
    as [Hrun _].
  - vm_compute. reflexivity.
  - repeat (eapply failed_probes_S; [vm_compute; reflexivity | reflexivity |]).
    apply failed_probes_O.
  - exact Hrun.
Defined.

(** One probe that is answered without ["UNABLE TO CONNECT"] ends the
    loop: no further probe is sent. *)
Example connect_loop_connected :
  connect_loop 40 5 (lit "UNABLE TO CONNECT")
    (port (reply "UNABLE TO CONNECT" ++ reply "4100BE3EA813"))
  = Return (lit "4100BE3EA813" ++ [LF]) (mkSerial [] [probe; probe] true 0).
Proof. vm_compute. reflexivity. Qed.

(** ** The port at the end of the session *)

(** C10, as stated, fails: the adapter answers every command, the bus
    connects at the first probe, and the stored-codes reply carries the
    group ["1133"], whose first digit the prefix table [{'0': 'P0'}] does
    not map.  The session ends by the uncaught [KeyError] with the port
    still open and [close] never called. *)
Lemma session_error_exit_leaves_port_open :
  session P0_table ∅ 60 (port (connected_replies ++ reply "4311330000"))
  = Throw KeyError (mkSerial [] (connected_commands ++ [command "03"]) true 0)
  /\ ~ released_on_exit (port (connected_replies ++ reply "4311330000"))
        (session P0_table ∅ 60 (port (connected_replies ++ reply "4311330000"))).
Proof.
  assert (session P0_table ∅ 60 (port (connected_replies ++ reply "4311330000"))
          = Throw KeyError
              (mkSerial [] (connected_commands ++ [command "03"]) true 0))
    as Hrun by (vm_compute; reflexivity).
  split; [exact Hrun|]. rewrite Hrun. intros [Hopen _]. discriminate Hopen.
Qed.

(** C10, amended. The session closes the port, by exactly one call of
    [close], on the two exits the script provides: the end of the script
    (the state [Closed]) and [quit()] after the retries are used up (the
    state [Failed]).  When any other exception ends the session, the
    script has not closed the port: it is as open as at the start. *)
Theorem session_closes_port_on_its_exits T D fuel (s0 : Serial) :
  (forall s', session T D fuel s0 = Return tt s' -> closed_once s0 s')
  /\ (forall s', session T D fuel s0 = Throw SystemExit s' -> closed_once s0 s')
  /\ (forall e s', session T D fuel s0 = Throw e s' -> e <> SystemExit ->
                   same_lifecycle s0 s').
Proof.
  pose proof (session_outcome T D fuel s0) as H.
  split; [|split].
  - intros s' Hrun. by rewrite Hrun in H.
  - intros s' Hrun. by rewrite Hrun in H.
  - intros e s' Hrun He. rewrite Hrun in H. by rewrite decide_False in H.
Qed.

Lemma session_closes_port_on_its_exits_witness :
  closed_once
    (port (connected_replies ++ reply "4301330000" ++ reply "470000" ++ reply "4A0000"))
    (mkSerial [] (connected_commands ++ map command ["03"; "07"; "0A"]) false 1).
Proof.
  destruct (session_closes_port_on_its_exits P0_table ∅ 60
              (port (connected_replies ++ reply "4301330000" ++ reply "470000"
                     ++ reply "4A0000"))) as (Hend & _ & _).
  apply Hend. vm_compute. reflexivity.
Defined.

(** ** The report of the trouble codes *)

Lemma describe_report_line D (TroubleCodeData code : str) :
  describe D TroubleCodeData code = TroubleCodeData ++ report_line D code.
Proof.
  unfold describe, report_line, dict_get.
  destruct (D !! code); cbn [default]; by rewrite <- !app_assoc.
Qed.

Lemma fold_left_describe D (codes : list str) (TroubleCodeData : str) :
  fold_left (describe D) codes TroubleCodeData
  = TroubleCodeData ++ concat (map (report_line D) codes).
Proof.
  revert TroubleCodeData. induction codes as [|code codes IH]; intros acc; simpl.
  - by rewrite app_nil_r.
  - by rewrite IH, describe_report_line, <- app_assoc.
Qed.

Lemma describe_all_lines D (codes : list str) :
  describe_all D codes = concat (map (report_line D) codes).
Proof. apply fold_left_describe. Qed.

(** C8. When the response has been framed and decoded into [codes],
    [GetTroubleCodeData] returns one line per code, in order; the line of
    a code that the description table does not hold is the code followed
    by [" : [DESCRIPTION NOT FOUND]"], and such a code between the codes
    [before] and [after] leaves their lines exactly as they are when those
    codes are reported on their own. *)
Theorem GetTroubleCodeData_placeholder T D fuel (OBDIImode : bytes)
    (s s' : Serial) (Response : str) (codes : list str) :
  GetResponse fuel (OBDIImode ++ [CR_byte]) s = Return Response s' ->
  DataToTroubleCodes T (PruneData Response 1) = Ok codes ->
  GetTroubleCodeData T D fuel OBDIImode s
  = Return (concat (map (report_line D) codes)) s'
  /\ (forall code, D !! code = None ->
        report_line D code = code ++ lit " : [DESCRIPTION NOT FOUND]" ++ [LF])
  /\ (forall before code after, codes = before ++ code :: after ->
        D !! code = None ->
        concat (map (report_line D) codes)
        = describe_all D before
          ++ (code ++ lit " : [DESCRIPTION NOT FOUND]" ++ [LF])
          ++ describe_all D after).
Proof.
  intros Hframe Hdecode. split; [|split].
  - unfold GetTroubleCodeData, bind. rewrite Hframe. cbn zeta.
    rewrite Hdecode. cbn [lift]. unfold ret. by rewrite describe_all_lines.
  - intros code Hmiss. unfold report_line. by rewrite Hmiss.
  - intros before code after -> Hmiss.
    rewrite map_app, concat_app. cbn [map concat].
    rewrite !describe_all_lines. unfold report_line at 2. by rewrite Hmiss.
Qed.

Lemma GetTroubleCodeData_placeholder_witness :
  GetTroubleCodeData P0_table O2_table 40 (blit "03") (port (reply "43017101330172"))
  = Return (lit "P0171 : [DESCRIPTION NOT FOUND]" ++ [LF]
            ++ lit "P0133 : O2 Sensor Circuit Slow Response" ++ [LF]
            ++ lit "P0172 : [DESCRIPTION NOT FOUND]" ++ [LF])
      (mkSerial [] [command "03"] true 0).
Proof.
  destruct (GetTroubleCodeData_placeholder P0_table O2_table 40 (blit "03")
              (port (reply "43017101330172")) (mkSerial [] [command "03"] true 0)
              (lit "43017101330172" ++ [LF])
              [lit "P0171"; lit "P0133"; lit "P0172"]) as (Hrun & _ & _).
  - vm_compute. reflexivity.
  - vm_compute. reflexivity.
  - rewrite Hrun. vm_compute. reflexivity.
Defined.

(** * Further properties *)

(** ** The line pruner *)

Lemma concat_split (sep : ascii) (s : str) :
  concat (split sep s) = filter (fun c => c <> sep) s.
Proof.
  induction s as [|c s IH]; [reflexivity|]. cbn [split].
  destruct (decide (c = sep)) as [->|Hne].
  - rewrite filter_cons_False by tauto. exact IH.
  - rewrite filter_cons_True by done. rewrite <- IH.
    pose proof (split_nonempty sep s) as Hne'.
    by destruct (split sep s) as [|piece pieces].
Qed.

Lemma split_without_sep (sep : ascii) (s : str) : sep ∉ s -> split sep s = [s].
Proof.
  induction s as [|c s IH]; intros Hnot; [reflexivity|]. cbn [split].
  apply not_elem_of_cons in Hnot as [Hne Hnot].
  rewrite decide_False by congruence. by rewrite IH.
Qed.

Lemma slice_from_no_sep (sep : ascii) (i : Z) (pieces : list str) :
  Forall (fun piece => sep ∉ piece) pieces ->
  Forall (fun piece => sep ∉ piece) (map (fun piece => slice_from piece i) pieces).
Proof.
  intros H. apply Forall_map. eapply Forall_impl; [exact H|].
  intros piece Hp Hin. apply Hp. revert Hin. apply subseteq_drop.
Qed.

(** Whatever the count, positive or negative, the pruned text has no line
    break. *)
Lemma PruneData_no_LF (Data : str) (RemoveByteCount : Z) :
  LF ∉ PruneData Data RemoveByteCount.
Proof.
  unfold PruneData.
  rewrite (fold_left_append (fun Line => slice_from Line (2 * RemoveByteCount))).
  apply concat_no_sep, slice_from_no_sep, split_no_sep.
Qed.

(** X1. With a count of zero [PruneData] takes nothing off the lines: it
    returns the response with exactly its line breaks removed. *)
Theorem PruneData_zero_removes_line_breaks (Data : str) :
  PruneData Data 0 = filter (fun c => c <> LF) Data.
Proof.
  rewrite PruneData_concat by lia. change (2 * Z.to_nat 0)%nat with 0%nat.
  rewrite <- concat_split. f_equal. apply map_id.
Qed.

(** X2. A negative count does not drop a prefix: from each line
    [PruneData] keeps the last [2 * |RemoveByteCount|] characters (the
    whole line when it is shorter), and concatenates them. *)
Theorem PruneData_negative_keeps_line_tails (Data : str) (RemoveByteCount : Z) :
  RemoveByteCount < 0 ->
  PruneData Data RemoveByteCount
  = concat (map (fun Line =>
                   drop (length Line - 2 * Z.to_nat (- RemoveByteCount)) Line)
              (split LF Data)).
Proof.
  intros Hneg. unfold PruneData.
  rewrite (fold_left_append (fun Line => slice_from Line (2 * RemoveByteCount))).
  cbn [app]. f_equal. apply map_ext. intros Line.
  unfold slice_from, slice_bound.
  destruct (Z.ltb_spec (2 * RemoveByteCount) 0); [|lia].
  f_equal. lia.
Qed.

Lemma PruneData_negative_keeps_line_tails_witness :
  -1 < 0
  /\ (PruneData (lit "ab4123" ++ (LF :: lit "7")) (-1) = lit "237").
Proof.
  split; [lia|].
  rewrite (PruneData_negative_keeps_line_tails _ (-1)); [reflexivity | lia].
Defined.

(** X3. Pruning is not idempotent: pruning an already pruned payload again
    with the count [m >= 0] takes a further [2 * m] characters off the
    front of the whole payload. *)
Theorem PruneData_twice (Data : str) (n m : Z) :
  0 <= m ->
  PruneData (PruneData Data n) m = drop (2 * Z.to_nat m) (PruneData Data n).
Proof.
  intros Hm. rewrite (PruneData_concat _ m) by done.
  rewrite split_without_sep by apply PruneData_no_LF.
  cbn [map concat]. apply app_nil_r.
Qed.

Lemma PruneData_twice_witness :
  0 <= 1
  /\ (PruneData (PruneData (lit "ab4123" ++ [LF]) 1) 1 = lit "23").
Proof.
  split; [lia|].
  rewrite (PruneData_twice _ 1 1); [reflexivity | lia].
Defined.

(** X4. On a response of one line the VIN rule is the general rule: when
    the response has no line break, [PruneDataVin] and [PruneData] return
    the same text, for every count. *)
Theorem PruneDataVin_single_line (Data : str) (RemoveByteCount : Z) :
  LF ∉ Data ->
  PruneDataVin Data RemoveByteCount = PruneData Data RemoveByteCount.
Proof.
  intros Hnot. unfold PruneDataVin, PruneData, enumerate.
  rewrite split_without_sep by done. reflexivity.
Qed.

Lemma PruneDataVin_single_line_witness :
  PruneDataVin (lit "49020157") 3 = PruneData (lit "49020157") 3.
Proof.
  apply PruneDataVin_single_line.
  intros Hin. by repeat (apply elem_of_cons in Hin as [Hin|Hin]; [discriminate Hin|]);
    apply elem_of_nil in Hin.
Defined.

(** ** The decoder *)

Lemma py_int_raises_ValueError (s : str) (e : exn) :
  py_int s = Raise e -> e = ValueError.
Proof. unfold py_int. repeat case_match; congruence. Qed.

Lemma int_digits_chars (acc : Z) (after_underscore : bool) (s : str) (n : Z) :
  int_digits acc after_underscore s = Some n ->
  Forall (fun c => int_char c = true) s.
Proof.
  revert acc after_underscore.
  induction s as [|c s IH]; intros acc u H; [constructor|].
  cbn [int_digits] in H.
  destruct (decide (c = "_"%char)) as [->|Hne].
  - destruct u; [done|]. constructor; [reflexivity | by eapply IH].
  - destruct (digit_value c) eqn:Hd; [|done].
    constructor; [|by eapply IH].
    unfold int_char. rewrite Hd. apply orb_true_r.
Qed.

Lemma lstrip_chars (P : ascii -> Prop) (s : str) :
  (forall c, is_int_space c = true -> P c) ->
  Forall P (lstrip s) -> Forall P s.
Proof.
  intros Hspace. induction s as [|c s IH]; intros H; [constructor|].
  cbn [lstrip] in H. destruct (is_int_space c) eqn:Hc; [|exact H].
  constructor; [by apply Hspace | by apply IH].
Qed.

Lemma strip_chars (P : ascii -> Prop) (s : str) :
  (forall c, is_int_space c = true -> P c) ->
  Forall P (strip s) -> Forall P s.
Proof.
  intros Hspace H. unfold strip in H.
  apply lstrip_chars; [done|].
  apply Forall_rev in H. rewrite rev_involutive in H.
  apply lstrip_chars in H; [|done].
  apply Forall_rev in H. by rewrite rev_involutive in H.
Qed.

(** A string [int] reads is made of white space, signs, digits and
    underscores only. *)
Lemma py_int_chars (s : str) (value : Z) :
  py_int s = Ok value -> Forall (fun c => int_char c = true) s.
Proof.
  intros H. apply strip_chars.
  { intros c Hc. unfold int_char. by rewrite Hc. }
  unfold py_int in H. destruct (strip s) as [|c r]; [done|].
  destruct (decide (c = "+"%char)) as [->|Hplus];
    [|destruct (decide (c = "-"%char)) as [->|Hminus]].
  - constructor; [reflexivity|]. destruct r as [|c' r]; [done|].
    destruct (decide (c' = "_"%char)); [done|].
    destruct (int_digits 0 false (c' :: r)) eqn:Hd; [|done].
    by eapply int_digits_chars.
  - constructor; [reflexivity|]. destruct r as [|c' r]; [done|].
    destruct (decide (c' = "_"%char)); [done|].
    destruct (int_digits 0 false (c' :: r)) eqn:Hd; [|done].
    by eapply int_digits_chars.
  - destruct (decide (c = "_"%char)); [done|].
    destruct (int_digits 0 false (c :: r)) eqn:Hd; [|done].
    by eapply int_digits_chars.
Qed.

Lemma decode_group_shift T (g : str) (TroubleCodes : list str) :
  decode_group T g TroubleCodes
  = result_bind (decode_group T g []) (fun codes => Ok (TroubleCodes ++ codes)).
Proof.
  unfold decode_group. destruct (py_int g) as [value|e]; [|reflexivity].
  cbn [result_bind]. case_match; [|cbn; by rewrite app_nil_r].
  destruct (first_char g) as [digit|e]; [|reflexivity]. cbn [result_bind].
  destruct (dict_get T digit); reflexivity.
Qed.

Lemma decode_groups_shift T (gs : list str) (TroubleCodes : list str) :
  decode_groups T gs TroubleCodes
  = result_bind (decode_groups T gs []) (fun codes => Ok (TroubleCodes ++ codes)).
Proof.
  revert TroubleCodes. induction gs as [|g gs IH]; intros acc; cbn [decode_groups].
  - cbn. by rewrite app_nil_r.
  - rewrite (decode_group_shift T g acc).
    destruct (decode_group T g []) as [codes|e]; [|reflexivity].
    cbn [result_bind app]. rewrite (IH (acc ++ codes)), (IH codes).
    destruct (decode_groups T gs []) as [codes'|e]; [|reflexivity].
    cbn. by rewrite app_assoc.
Qed.

Lemma decode_group_raises T (g : str) (TroubleCodes : list str) (e : exn) :
  decode_group T g TroubleCodes = Raise e ->
  e = match py_int g with Ok _ => KeyError | Raise _ => ValueError end
  /\ ~ decodable T g.
Proof.
  intros H. split.
  - unfold decode_group in H.
    destruct (py_int g) as [value|e'] eqn:Hint.
    + cbn [result_bind] in H. case_match; [|done].
      destruct g as [|c g]; [by rewrite py_int_nil in Hint|].
      cbn [first_char result_bind] in H. unfold dict_get in H.
      destruct (T !! [c]); cbn in H; congruence.
    + cbn in H. apply py_int_raises_ValueError in Hint. congruence.
  - intros Hdec. by rewrite (decode_group_decodable _ _ _ Hdec) in H.
Qed.

Lemma decode_group_not_decodable T (g : str) (TroubleCodes : list str) :
  ~ decodable T g ->
  decode_group T g TroubleCodes
  = Raise (match py_int g with Ok _ => KeyError | Raise _ => ValueError end).
Proof.
  intros Hnot. destruct (decode_group T g TroubleCodes) as [codes|e] eqn:E.
  - destruct Hnot. by eapply decode_group_returns.
  - apply decode_group_raises in E as [-> _]. reflexivity.
Qed.

(** X5. The decoder returns codes exactly when every group of the payload
    can be decoded; the payload may have any length. *)
Theorem DataToTroubleCodes_returns_iff_decodable T (Data : str) :
  (exists codes, DataToTroubleCodes T Data = Ok codes)
  <-> Forall (decodable T) (groups Data).
Proof.
  rewrite DataToTroubleCodes_groups. split.
  - intros [codes H]. by eapply decode_groups_returns.
  - intros H. rewrite decode_groups_decodable by done. by eexists.
Qed.

(** X6. The decoder does not check that the payload is made of whole
    groups: one to three characters left after the last whole group are
    decoded as a group of their own. *)
Theorem DataToTroubleCodes_partial_group T (aligned short : str) (n : nat) :
  length aligned = (4 * n)%nat ->
  (0 < length short < 4)%nat ->
  DataToTroubleCodes T (aligned ++ short)
  = result_bind (DataToTroubleCodes T aligned) (decode_group T short).
Proof.
  intros Hlen Hshort.
  rewrite !DataToTroubleCodes_groups, (groups_app aligned short n) by done.
  rewrite decode_groups_app.
  destruct (decode_groups T (groups aligned) []) as [codes|e]; [|reflexivity].
  cbn [result_bind].
  destruct short as [|a [|b [|c [|d rest]]]]; cbn [length] in Hshort; try lia;
    cbn [groups decode_groups]; by destruct (decode_group T _ codes).
Qed.

Lemma DataToTroubleCodes_partial_group_witness :
  DataToTroubleCodes {[ lit "0" := lit "P" ]} (lit "0133" ++ lit "01")
  = Ok [lit "P133"; lit "P1"].
Proof.
  rewrite (DataToTroubleCodes_partial_group _ (lit "0133") (lit "01") 1);
    [reflexivity | reflexivity | cbn; lia].
Defined.

(** X7. Payloads compose: when the first payload is made of whole groups,
    decoding the two payloads joined gives the codes of the first followed
    by the codes of the second, and raises what the first of them to fail
    raises. *)
Theorem DataToTroubleCodes_app T (first second : str) (n : nat) :
  length first = (4 * n)%nat ->
  DataToTroubleCodes T (first ++ second)
  = (codes1 <- DataToTroubleCodes T first ;;
     codes2 <- DataToTroubleCodes T second ;;
     Ok (codes1 ++ codes2))%result.
Proof.
  intros Hlen.
  rewrite !DataToTroubleCodes_groups, (groups_app first second n) by done.
  rewrite decode_groups_app.
  destruct (decode_groups T (groups first) []) as [codes1|e]; [|reflexivity].
  cbn [result_bind]. apply decode_groups_shift.
Qed.

Lemma DataToTroubleCodes_app_witness :
  DataToTroubleCodes {[ lit "0" := lit "P" ]} (lit "01330000" ++ lit "0171")
  = Ok [lit "P133"; lit "P171"].
Proof.
  rewrite (DataToTroubleCodes_app _ (lit "01330000") (lit "0171") 2);
    reflexivity.
Defined.

(** X8. The decoder stops at the first group that cannot be decoded and
    returns no codes, not even those of the groups before it: it raises
    [ValueError] when [int] rejects that group and [KeyError] when the
    group is read as a non-zero integer and its first character is not a
    key of the prefix table. *)
Theorem DataToTroubleCodes_first_undecodable_group T (pre g post : str) (n : nat) :
  length pre = (4 * n)%nat ->
  Forall (decodable T) (groups pre) ->
  length g = 4%nat ->
  ~ decodable T g ->
  DataToTroubleCodes T (pre ++ g ++ post)
  = Raise (match py_int g with Ok _ => KeyError | Raise _ => ValueError end).
Proof.
  intros Hpre Hall Hg Hnot.
  rewrite DataToTroubleCodes_groups, (groups_app pre _ n) by done.
  rewrite (groups_app g post 1) by done.
  destruct g as [|a [|b [|c [|d [|]]]]]; try done.
  cbn [groups app]. apply decode_groups_raises; [done|].
  intros acc. by apply decode_group_not_decodable.
Qed.

Lemma DataToTroubleCodes_first_undecodable_group_witness :
  DataToTroubleCodes {[ lit "0" := lit "P" ]} (lit "0133" ++ lit "1234" ++ lit "0171")
  = Raise KeyError.
Proof.
  rewrite (DataToTroubleCodes_first_undecodable_group _ (lit "0133") (lit "1234")
             (lit "0171") 1).
  - reflexivity.
  - reflexivity.
  - repeat constructor. exists 133. split; [reflexivity|].
    intros _. by eexists.
  - reflexivity.
  - intros (value & Hint & Hkey). vm_compute in Hint.
    injection Hint as <-. destruct Hkey as [prefix Hprefix]; [done|].
    vm_compute in Hprefix. discriminate Hprefix.
Defined.

(** X9. [ValueError] and [KeyError] are the only exceptions of the
    decoder. *)
Theorem DataToTroubleCodes_raises_ValueError_or_KeyError T (Data : str) (e : exn) :
  DataToTroubleCodes T Data = Raise e -> e = ValueError \/ e = KeyError.
Proof.
  rewrite DataToTroubleCodes_groups. generalize (@nil str).
  induction (groups Data) as [|g gs IH]; intros acc H; cbn [decode_groups] in H;
    [done|].
  destruct (decode_group T g acc) as [acc'|e'] eqn:E; [by eapply IH|].
  injection H as <-. apply decode_group_raises in E as [-> _].
  destruct (py_int g); auto.
Qed.

Lemma DataToTroubleCodes_raises_ValueError_or_KeyError_witness :
  ValueError = ValueError \/ ValueError = KeyError.
Proof.
  apply (DataToTroubleCodes_raises_ValueError_or_KeyError
           {[ lit "0" := lit "P" ]} (lit "C100")).
  reflexivity.
Defined.

(** X10. A payload whose first group holds a character that is not a
    decimal digit, a sign, an underscore or white space -- a hexadecimal
    digit [A] to [F], for one -- makes the decoder raise [ValueError],
    whatever the prefix table holds. *)
Theorem DataToTroubleCodes_rejects_letters T (Data : str) (c : ascii) :
  c ∈ take 4 Data ->
  int_char c = false ->
  DataToTroubleCodes T Data = Raise ValueError.
Proof.
  intros Hin Hc. rewrite DataToTroubleCodes_groups.
  destruct Data as [|a Data']; [by apply elem_of_nil in Hin|].
  rewrite groups_step by done. cbn [decode_groups].
  assert (py_int (take 4 (a :: Data')) = Raise ValueError) as Hint.
  { destruct (py_int (take 4 (a :: Data'))) as [value|e] eqn:E.
    - apply py_int_chars in E. rewrite Forall_forall in E.
      specialize (E c Hin). congruence.
    - by apply py_int_raises_ValueError in E as ->. }
  unfold decode_group. by rewrite Hint.
Qed.

Lemma DataToTroubleCodes_rejects_letters_witness :
  DataToTroubleCodes {[ lit "C" := lit "U0" ]} (lit "C1000133") = Raise ValueError.
Proof.
  apply (DataToTroubleCodes_rejects_letters _ _ "C"%char).
  - apply elem_of_cons. by left.
  - reflexivity.
Defined.

(** ** The framer *)

Lemma GetResponse_loop_prompt (fuel : nat) (Response : str) (s : Serial) :
  GetResponse_loop fuel (VBytes (Some prompt_byte)) Response s = Return Response s.
Proof. destruct fuel; reflexivity. Qed.

Lemma ne_prompt (b : Byte.byte) :
  b <> prompt_byte -> ne (VBytes (Some b)) (VBytes (Some prompt_byte)) = true.
Proof.
  intros Hb. unfold ne. rewrite bool_decide_eq_false_2; [done | congruence].
Qed.

Lemma GetResponse_loop_reads (events rest : list (option Byte.byte))
    (fuel : nat) (ReadChar : read_value) (Response : str)
    (log : list bytes) (n : nat) (last : option Byte.byte) :
  ne ReadChar (VBytes (Some prompt_byte)) && ne ReadChar (VInt 0) = true ->
  Forall quiet events ->
  (length events < fuel)%nat ->
  exists ReadChar',
    ne ReadChar' (VBytes (Some prompt_byte)) && ne ReadChar' (VInt 0) = true
    /\ GetResponse_loop fuel ReadChar Response
         (mkSerial (events ++ last :: rest) log true n)
       = GetResponse_loop (fuel - length events) ReadChar'
           (Response ++ text_of events) (mkSerial (last :: rest) log true n).
Proof.
  revert fuel ReadChar Response.
  induction events as [|r events IH]; intros fuel ReadChar Response Hgo Hquiet Hfuel.
  - exists ReadChar. split; [done|].
    cbn [length app text_of map concat]. by rewrite Nat.sub_0_r, app_nil_r.
  - destruct fuel as [|fuel]; [cbn in Hfuel; lia|].
    inversion Hquiet as [|? ? Hr Hquiet']; subst.
    assert (ne (VBytes r) (VBytes (Some prompt_byte)) = true) as Hne.
    { destruct r as [b|]; [apply ne_prompt, Hr | reflexivity]. }
    assert (decode_byte r
            = Ok (match r with Some b => [ascii_of_byte b] | None => [] end)) as Hdec.
    { destruct r as [b|]; [|reflexivity]. destruct Hr as [_ Hascii].
      unfold decode_byte. apply N.ltb_lt in Hascii. by rewrite Hascii. }
    destruct (IH fuel (VBytes r)
                (Response ++ match r with Some b => [ascii_of_byte b] | None => [] end))
      as (ReadChar' & Hgo' & Hrun); [by rewrite Hne | done | cbn in Hfuel; lia |].
    exists ReadChar'. split; [done|].
    rewrite GetResponse_loop_step by done.
    cbn [incoming app written is_open closes length Nat.sub].
    cbv zeta. rewrite Hne, Hdec, Hrun.
    cbn [text_of map concat]. by rewrite <- app_assoc.
Qed.

(** X11. A reply is framed by its prompt: when the port delivers bytes
    below 128 and time-outs, none of them the prompt, and then the prompt,
    [GetResponse] writes its command, returns the normalised text of those
    bytes without the prompt, and leaves what follows the prompt unread.
    The time-outs inside the reply are passed over. *)
Theorem GetResponse_frames_reply (fuel : nat) (Data : bytes)
    (events rest : list (option Byte.byte)) (log : list bytes) (n : nat) :
  Forall quiet events ->
  (length events < fuel)%nat ->
  GetResponse fuel Data (mkSerial (events ++ Some prompt_byte :: rest) log true n)
  = Return (normalise (text_of events)) (mkSerial rest (log ++ [Data]) true n).
Proof.
  intros Hquiet Hfuel. unfold GetResponse, bind at 1, write. cbn [is_open].
  unfold bind. cbn [incoming written closes].
  destruct (GetResponse_loop_reads events rest fuel (VInt 1) [] (log ++ [Data]) n
              (Some prompt_byte)) as (ReadChar' & Hgo & ->); [done..|].
  destruct (fuel - length events)%nat as [|fuel'] eqn:Hleft; [lia|].
  rewrite GetResponse_loop_step by done.
  cbn [incoming written is_open closes].
  change (ne (VBytes (Some prompt_byte)) (VBytes (Some prompt_byte))) with false.
  cbv zeta iota. by rewrite GetResponse_loop_prompt.
Qed.

Lemma GetResponse_frames_reply_witness :
  GetResponse 9 (command "AT RV")
    (mkSerial ([Some x31; None; Some x32; Some x0d] ++ Some prompt_byte :: [Some x4f])
       [] true 0)
  = Return (lit "12" ++ [LF]) (mkSerial [Some x4f] [command "AT RV"] true 0).
Proof.
  rewrite GetResponse_frames_reply.
  - reflexivity.
  - repeat constructor; discriminate.
  - cbn. lia.
Defined.

(** X12. A byte of 128 or more inside a reply ends [GetResponse] with
    [UnicodeDecodeError]: the command has been written, the reply has been
    read up to and including that byte, and the rest of it, prompt
    included, is still unread. *)
Theorem GetResponse_raises_on_high_byte (fuel : nat) (Data : bytes)
    (events rest : list (option Byte.byte)) (b : Byte.byte)
    (log : list bytes) (n : nat) :
  Forall quiet events ->
  (length events < fuel)%nat ->
  (128 <= Byte.to_N b)%N ->
  GetResponse fuel Data (mkSerial (events ++ Some b :: rest) log true n)
  = Throw UnicodeDecodeError (mkSerial rest (log ++ [Data]) true n).
Proof.
  intros Hquiet Hfuel Hhigh. unfold GetResponse, bind at 1, write. cbn [is_open].
  unfold bind. cbn [incoming written closes].
  destruct (GetResponse_loop_reads events rest fuel (VInt 1) [] (log ++ [Data]) n
              (Some b)) as (ReadChar' & Hgo & ->); [done..|].
  destruct (fuel - length events)%nat as [|fuel'] eqn:Hleft; [lia|].
  rewrite GetResponse_loop_step by done.
  cbn [incoming written is_open closes].
  rewrite ne_prompt by (intros ->; vm_compute in Hhigh; by destruct Hhigh).
  unfold decode_byte. apply N.ltb_ge in Hhigh. by rewrite Hhigh.
Qed.

Lemma GetResponse_raises_on_high_byte_witness :
  GetResponse 9 (command "AT Z")
    (mkSerial ([Some x4f] ++ Some xff :: [Some x4b; Some prompt_byte]) [] true 0)
  = Throw UnicodeDecodeError
      (mkSerial [Some x4b; Some prompt_byte] [command "AT Z"] true 0).
Proof.
  apply GetResponse_raises_on_high_byte.
  - repeat constructor; discriminate.
  - cbn. lia.
  - vm_compute. discriminate.
Defined.

Lemma replace_from_elem (old new : str) (skip : nat) (s : str) (x : ascii) :
  x ∈ replace_from old new skip s -> x ∈ s \/ x ∈ new.
Proof.
  revert skip. induction s as [|c s IH]; intros skip Hin; cbn [replace_from] in Hin.
  - by left.
  - destruct skip as [|skip].
    + destruct (starts_with old (c :: s)).
      * apply elem_of_app in Hin as [Hin|Hin]; [by right|].
        apply IH in Hin as [Hin|Hin]; [left; by apply elem_of_cons; right | by right].
      * apply elem_of_cons in Hin as [->|Hin]; [left; by apply elem_of_cons; left|].
        apply IH in Hin as [Hin|Hin]; [left; by apply elem_of_cons; right | by right].
    + apply IH in Hin as [Hin|Hin]; [left; by apply elem_of_cons; right | by right].
Qed.

Lemma normalise_elem (Response : str) (x : ascii) :
  x ∈ normalise Response -> x ∈ Response \/ x = LF.
Proof.
  unfold normalise, replace at 1. intros Hin.
  apply replace_from_elem in Hin as [Hin|Hin].
  - rewrite replace_char in Hin.
    apply list_elem_of_fmap in Hin as (c & -> & Hc).
    destruct (decide (c = CR)); [by right | by left].
  - right. by apply list_elem_of_singleton in Hin.
Qed.

Lemma normalise_no_CR (Response : str) : CR ∉ normalise Response.
Proof.
  unfold normalise, replace at 1. intros Hin.
  apply replace_from_elem in Hin as [Hin|Hin].
  - by apply replace_CR_LF in Hin.
  - by apply list_elem_of_singleton in Hin.
Qed.

Lemma decode_byte_no_prompt (b : option Byte.byte) (text : str) :
  ne (VBytes b) (VBytes (Some prompt_byte)) = true ->
  decode_byte b = Ok text -> ">"%char ∉ text.
Proof.
  intros Hne Hdec Hin. destruct b as [x|]; cbn in Hdec.
  - destruct (Byte.to_N x <? 128)%N; [|done]. injection Hdec as <-.
    apply list_elem_of_singleton in Hin.
    assert (x = prompt_byte) as ->.
    { rewrite <- (byte_of_ascii_of_byte x), <- Hin. reflexivity. }
    discriminate Hne.
  - injection Hdec as <-. by apply elem_of_nil in Hin.
Qed.

Lemma GetResponse_loop_no_prompt (fuel : nat) (ReadChar : read_value)
    (Response Response' : str) (s s' : Serial) :
  GetResponse_loop fuel ReadChar Response s = Return Response' s' ->
  ">"%char ∉ Response -> ">"%char ∉ Response'.
Proof.
  revert ReadChar Response s.
  induction fuel as [|fuel IH]; intros ReadChar Response s Hrun Hnot;
    cbn [GetResponse_loop] in Hrun;
    destruct (ne ReadChar (VBytes (Some prompt_byte)) && ne ReadChar (VInt 0));
    try done; try (injection Hrun as <- _; done).
  unfold bind at 1 in Hrun.
  destruct (read s) as [b s1|e s1|]; [|done|done].
  destruct (ne (VBytes b) (VBytes (Some prompt_byte))) eqn:Hne; [|by eapply IH].
  unfold bind, lift, to_str in Hrun.
  destruct (decode_byte b) as [text|e] eqn:Hdec; [|done].
  eapply IH; [exact Hrun|].
  rewrite elem_of_app. intros [Hin|Hin]; [done|].
  by eapply decode_byte_no_prompt.
Qed.

(** X13. Whatever the port delivers, a response that [GetResponse] returns
    holds neither a carriage return nor the prompt character. *)
Theorem GetResponse_response_has_no_CR_no_prompt (fuel : nat) (Data : bytes)
    (s s' : Serial) (Response : str) :
  GetResponse fuel Data s = Return Response s' ->
  (CR ∉ Response) /\ (">"%char ∉ Response).
Proof.
  unfold GetResponse, bind at 1. intros Hrun.
  destruct (write Data s) as [[] s1|e s1|]; [|done|done].
  unfold bind in Hrun.
  destruct (GetResponse_loop fuel (VInt 1) [] s1) as [text s2|e s2|] eqn:Hloop;
    [|done|done].
  unfold ret in Hrun. injection Hrun as <- _. split.
  - apply normalise_no_CR.
  - intros Hin. apply normalise_elem in Hin as [Hin|Hin]; [|discriminate Hin].
    revert Hin. eapply GetResponse_loop_no_prompt; [exact Hloop|].
    apply not_elem_of_nil.
Qed.

Lemma GetResponse_response_has_no_CR_no_prompt_witness :
  (CR ∉ lit "OK" ++ [LF]) /\ (">"%char ∉ lit "OK" ++ [LF]).
Proof.
  apply (GetResponse_response_has_no_CR_no_prompt 9 (command "AT S0")
           (port (reply "OK")) (mkSerial [] [command "AT S0"] true 0)).
  reflexivity.
Defined.

Lemma replace_LF_LF_body (body tail : str) :
  LF ∉ body ->
  replace_from [LF; LF] [LF] 0 (body ++ tail)
  = body ++ replace_from [LF; LF] [LF] 0 tail.
Proof.
  induction body as [|c body IH]; intros Hnot; [reflexivity|].
  apply not_elem_of_cons in Hnot as [Hne Hnot].
  cbn [app replace_from starts_with].
  rewrite bool_decide_eq_false_2 by congruence.
  cbn [andb]. by rewrite IH.
Qed.

Lemma replace_LF_LF_run (n : nat) :
  replace_from [LF; LF] [LF] 0 (replicate n LF) = replicate (Nat.div2 (S n)) LF.
Proof.
  induction n as [n IH] using lt_wf_ind.
  destruct n as [|[|n]]; [reflexivity | reflexivity |].
  change (replace_from [LF; LF] [LF] 0 (replicate (S (S n)) LF))
    with (LF :: replace_from [LF; LF] [LF] 0 (replicate n LF)).
  rewrite IH by lia. reflexivity.
Qed.

(** X14. The doubled line breaks are collapsed in one pass only: a
    response that ends with [n] carriage returns after a body without
    carriage return or line break is returned with half as many line
    breaks, rounded up, and so with more than one when [n] is three or
    more. *)
Theorem normalise_run_of_CR (body : str) (n : nat) :
  CR ∉ body -> LF ∉ body ->
  normalise (body ++ replicate n CR) = body ++ replicate (Nat.div2 (S n)) LF.
Proof.
  intros HCR HLF. unfold normalise. rewrite replace_char.
  rewrite map_app.
  assert (map (fun c => if decide (c = CR) then LF else c) body = body) as ->.
  { rewrite <- (map_id body) at 2. apply map_ext_in. intros c Hc.
    apply list_elem_of_In in Hc.
    destruct (decide (c = CR)) as [->|]; [done | reflexivity]. }
  assert (map (fun c => if decide (c = CR) then LF else c) (replicate n CR)
          = replicate n LF) as ->.
  { induction n as [|n IH]; [reflexivity|]. cbn [replicate map].
    by rewrite IH. }
  unfold replace. rewrite replace_LF_LF_body by done.
  by rewrite replace_LF_LF_run.
Qed.

Lemma normalise_run_of_CR_witness :
  normalise (lit "OK" ++ replicate 3 CR) = lit "OK" ++ [LF; LF].
Proof.
  rewrite normalise_run_of_CR; [reflexivity | |];
    intros Hin; repeat (apply elem_of_cons in Hin as [Hin|Hin]; [discriminate Hin|]);
    by apply elem_of_nil in Hin.
Defined.

(** ** The report of the trouble codes *)

(** A reply framed by its prompt, as [GetResponse] returns it. *)
Lemma GetResponse_framed (fuel : nat) (Data : bytes)
    (events rest : list (option Byte.byte)) (log : list bytes) (n : nat) :
  Forall quiet events ->
  (length events < fuel)%nat ->
  GetResponse fuel Data (mkSerial (events ++ Some prompt_byte :: rest) log true n)
  = Return (normalise (text_of events)) (mkSerial rest (log ++ [Data]) true n).
Proof.
  intros Hquiet Hfuel. unfold GetResponse, bind at 1, write. cbn [is_open].
  unfold bind. cbn [incoming written closes].
  destruct (GetResponse_loop_reads events rest fuel (VInt 1) [] (log ++ [Data]) n
              (Some prompt_byte)) as (ReadChar' & Hgo & ->); [done..|].
  destruct (fuel - length events)%nat as [|fuel'] eqn:Hleft; [lia|].
  rewrite GetResponse_loop_step by done.
  cbn [incoming written is_open closes].
  change (ne (VBytes (Some prompt_byte)) (VBytes (Some prompt_byte))) with false.
  cbv zeta iota. by rewrite GetResponse_loop_prompt.
Qed.

(** A first group that [int] cannot read. *)
Lemma decode_groups_unreadable T (Data : str) (c : ascii) :
  c ∈ take 4 Data ->
  int_char c = false ->
  decode_groups T (groups Data) [] = Raise ValueError.
Proof.
  intros Hin Hc.
  destruct Data as [|a Data']; [by apply elem_of_nil in Hin|].
  rewrite groups_step by done. cbn [decode_groups].
  assert (py_int (take 4 (a :: Data')) = Raise ValueError) as Hint.
  { destruct (py_int (take 4 (a :: Data'))) as [value|e] eqn:E.
    - apply py_int_chars in E. rewrite Forall_forall in E.
      specialize (E c Hin). congruence.
    - by apply py_int_raises_ValueError in E as ->. }
  unfold decode_group. by rewrite Hint.
Qed.

(** X15. From the bytes on the port to the exception: when the reply to a
    trouble-code request, once framed, normalised and pruned, begins with
    a group that holds a character [int] cannot read -- a letter, as in
    the adapter's own ["NO DATA"] or in a code with a hexadecimal digit
    above 9 -- [GetTroubleCodeData] raises [ValueError] whatever the two
    tables hold.  The [try] around the description look-up does not catch
    it; the command has been written and the reply consumed. *)
Theorem GetTroubleCodeData_raises_on_unreadable_reply T D fuel (OBDIImode : bytes)
    (events rest : list (option Byte.byte)) (log : list bytes) (n : nat)
    (c : ascii) :
  Forall quiet events ->
  (length events < fuel)%nat ->
  c ∈ take 4 (PruneData (normalise (text_of events)) 1) ->
  int_char c = false ->
  GetTroubleCodeData T D fuel OBDIImode
    (mkSerial (events ++ Some prompt_byte :: rest) log true n)
  = Throw ValueError (mkSerial rest (log ++ [OBDIImode ++ [CR_byte]]) true n).
Proof.
  intros Hquiet Hfuel Hin Hc. unfold GetTroubleCodeData. unfold bind at 1.
  rewrite GetResponse_framed by done. cbv zeta. unfold bind.
  rewrite DataToTroubleCodes_groups.
  by rewrite (decode_groups_unreadable T _ c Hin Hc).
Qed.

Lemma GetTroubleCodeData_raises_on_unreadable_reply_witness :
  GetTroubleCodeData P0_table O2_table 40 (blit "03")
    (mkSerial (map Some (blit "NO DATA" ++ [CR_byte; CR_byte])
               ++ Some prompt_byte :: []) [] true 0)
  = Throw ValueError (mkSerial [] [command "03"] true 0).
Proof.
  apply (GetTroubleCodeData_raises_on_unreadable_reply P0_table O2_table 40
           (blit "03") (map Some (blit "NO DATA" ++ [CR_byte; CR_byte])) [] [] 0
           "D"%char).
  - repeat constructor; discriminate.
  - cbn. lia.
  - vm_compute. apply elem_of_cons. right. apply elem_of_cons. by left.
  - reflexivity.
Defined.

(** ** The connection retry loop *)

Lemma starts_with_prefix (sub s : str) :
  starts_with sub s = true <-> exists post, s = sub ++ post.
Proof.
  revert s. induction sub as [|a sub IH]; intros s.
  - split; [intros _; by exists s | by destruct s].
  - destruct s as [|b s]; cbn [starts_with].
    + split; [done | intros [post H]; discriminate H].
    + rewrite andb_true_iff, bool_decide_eq_true, IH. split.
      * intros [-> [post ->]]. by exists post.
      * intros [post H]. injection H as -> ->. split; [done | by exists post].
Qed.

Lemma find_from_found (sub s : str) (index : Z) :
  0 <= index ->
  find_from sub s index <> -1 <-> exists pre post, s = pre ++ sub ++ post.
Proof.
  revert index. induction s as [|c s IH]; intros index Hindex; cbn [find_from].
  - destruct (starts_with sub []) eqn:Hstart.
    + apply starts_with_prefix in Hstart as [post Hpost]. split; [|lia].
      intros _. by exists [], post.
    + split; [done|]. intros (pre & post & H).
      destruct pre; [|discriminate H]. cbn in H.
      assert (starts_with sub [] = true) by (apply starts_with_prefix; eauto).
      congruence.
  - destruct (starts_with sub (c :: s)) eqn:Hstart.
    + apply starts_with_prefix in Hstart as [post Hpost]. split; [|lia].
      intros _. by exists [], post.
    + rewrite IH by lia. split.
      * intros (pre & post & ->). by exists (c :: pre), post.
      * intros (pre & post & H). destruct pre as [|c' pre].
        -- assert (starts_with sub (c :: s) = true)
             by (apply starts_with_prefix; eauto).
           congruence.
        -- injection H as -> ->. by exists pre, post.
Qed.

(** X16. The test of the retry loop holds exactly when the response
    contains the text ["UNABLE TO CONNECT"], anywhere in it. *)
Theorem unable_to_connect_iff_contains (Response : str) :
  unable_to_connect Response = true
  <-> exists pre post, Response = pre ++ lit "UNABLE TO CONNECT" ++ post.
Proof.
  unfold unable_to_connect, find.
  rewrite <- (find_from_found _ _ 0) by lia.
  rewrite negb_true_iff, Z.eqb_neq. reflexivity.
Qed.

(** X17. The retry loop stops at the first probe whose response does not
    contain ["UNABLE TO CONNECT"]: after [k] failed probes, with tries
    left, it returns that response and has sent [k + 1] probes. *)
Theorem connect_loop_connects fuel (TryCount k : nat) (s s1 s2 : Serial)
    (Response : str) :
  failed_probes fuel k s s1 ->
  (k < TryCount)%nat ->
  GetResponse fuel probe s1 = Return Response s2 ->
  unable_to_connect Response = false ->
  connect_loop fuel TryCount (lit "UNABLE TO CONNECT") s = Return Response s2
  /\ written s2 = written s ++ replicate (S k) probe.
Proof.
  intros Hfailed Hleft Hrun Hok. split.
  - assert (unable_to_connect (lit "UNABLE TO CONNECT") = true) as H0
      by reflexivity.
    revert H0 Hleft. generalize (lit "UNABLE TO CONNECT"). revert TryCount.
    induction Hfailed as [s|k s s' s'' Response' Hrun' Hunable _ IH];
      intros TryCount Response0 H0 Hleft.
    + destruct TryCount as [|TryCount]; [lia|].
      cbn [connect_loop]. rewrite H0. unfold bind. rewrite Hrun.
      destruct TryCount; cbn [connect_loop]; by rewrite ?Hok.
    + destruct TryCount as [|TryCount]; [lia|].
      cbn [connect_loop]. rewrite H0. unfold bind. rewrite Hrun'.
      apply IH; [done | done | lia].
  - apply failed_probes_effect in Hfailed as [Hw _].
    apply GetResponse_returns in Hrun as (_ & Hw2 & _).
    rewrite Hw2, Hw, <- app_assoc. f_equal.
    change [probe] with (replicate 1 probe). rewrite <- replicate_add.
    f_equal. lia.
Qed.

Lemma connect_loop_connects_witness :
  connect_loop 40 5 (lit "UNABLE TO CONNECT")
    (port (reply "UNABLE TO CONNECT" ++ reply "4100BE3EA813"))
  = Return (lit "4100BE3EA813" ++ [LF]) (mkSerial [] [probe; probe] true 0).
Proof.
  destruct (connect_loop_connects 40 5 1
              (port (reply "UNABLE TO CONNECT" ++ reply "4100BE3EA813"))
              (mkSerial (map Some (reply "4100BE3EA813")) [probe] true 0)
              (mkSerial [] [probe; probe] true 0)
              (lit "4100BE3EA813" ++ [LF])) as [Hrun _].
  - eapply failed_probes_S; [vm_compute; reflexivity | reflexivity |].
    apply failed_probes_O.
  - lia.
  - vm_compute. reflexivity.
  - reflexivity.
  - exact Hrun.
Defined.

(** ** What the session writes *)

Lemma sends_ret {A} (a : A) : sends [] (ret a).
Proof. intros s. cbn. by rewrite app_nil_r. Qed.

Lemma sends_lift {A} (r : result A) : sends [] (lift r).
Proof.
  intros s. destruct r; cbn; [by rewrite app_nil_r|].
  exists []. by rewrite app_nil_r.
Qed.

Lemma sends_bind {A B} (cmds1 cmds2 : list bytes) (m : M A) (k : A -> M B) :
  sends cmds1 m -> (forall a, sends cmds2 (k a)) -> sends (cmds1 ++ cmds2) (bind m k).
Proof.
  intros Hm Hk s. unfold bind. specialize (Hm s).
  destruct (m s) as [a s1|e s1|]; [| |done].
  - specialize (Hk a s1). destruct (k a s1) as [b s2|e s2|]; [| |done].
    + by rewrite Hk, Hm, app_assoc.
    + destruct Hk as (l & Hl & Hw). exists (cmds1 ++ l). split.
      * by apply prefix_app.
      * by rewrite Hw, Hm, app_assoc.
  - destruct Hm as (l & Hl & Hw). exists l. split; [|done].
    by apply prefix_app_r.
Qed.

Lemma sends_GetResponse fuel (Data : bytes) : sends [Data] (GetResponse fuel Data).
Proof.
  intros s. unfold GetResponse, bind at 1, write.
  destruct (is_open s) eqn:Hopen.
  - unfold bind.
    pose proof (respects_GetResponse_loop fuel (VInt 1) []
                  (mkSerial (incoming s) (written s ++ [Data]) true (closes s)))
      as Hloop.
    destruct (GetResponse_loop _ _ _ _) as [text s1|e s1|]; [| |done].
    + cbn. by destruct Hloop as [-> _].
    + destruct Hloop as [[-> _] _]. by exists [Data].
  - exists []. split; [apply prefix_nil | by rewrite app_nil_r].
Qed.

Lemma sends_GetTroubleCodeData T D fuel (OBDIImode : bytes) :
  sends [OBDIImode ++ [CR_byte]] (GetTroubleCodeData T D fuel OBDIImode).
Proof.
  unfold GetTroubleCodeData.
  apply (sends_bind [_] []); [apply sends_GetResponse|]. intros Response.
  apply (sends_bind [] []); [apply sends_lift|]. intros codes. apply sends_ret.
Qed.

Lemma sends_setup fuel : sends setup_commands (setup fuel).
Proof.
  unfold setup.
  repeat (apply (sends_bind [_]); [apply sends_GetResponse | intros ?]).
  apply sends_ret.
Qed.

Lemma sends_diagnostics T D fuel :
  sends diagnostics_commands (diagnostics T D fuel).
Proof.
  unfold diagnostics.
  apply (sends_bind [_]); [apply sends_GetResponse | intros ?].
  apply (sends_bind [_]); [apply sends_GetResponse | intros ?].
  apply (sends_bind []); [apply sends_lift | intros ?].
  repeat (apply (sends_bind [_]); [apply sends_GetTroubleCodeData | intros ?]).
  apply sends_ret.
Qed.

(** The retry loop sends probes only, and no more than it has tries. *)
Lemma connect_loop_sends fuel (TryCount : nat) (Response : str) (s : Serial) :
  forall s', ended (connect_loop fuel TryCount Response s) s' ->
  exists k, (k <= TryCount)%nat /\ written s' = written s ++ replicate k probe.
Proof.
  revert Response s. induction TryCount as [|TryCount IH]; intros Response s s' Hend;
    cbn [connect_loop] in Hend.
  - exists 0%nat. split; [lia|].
    destruct Hend as [[a H]|[e H]]; [|done]. injection H as _ <-.
    by rewrite app_nil_r.
  - destruct (unable_to_connect Response).
    + unfold bind in Hend. pose proof (sends_GetResponse fuel probe s) as Hsend.
      destruct (GetResponse fuel probe s) as [Response1 s1|e s1|].
      * destruct (IH _ _ _ Hend) as (k & Hk & Hw). exists (S k). split; [lia|].
        by rewrite Hw, Hsend, <- app_assoc.
      * destruct Hend as [[a H]|[e' H]]; [done|]. injection H as _ <-.
        destruct Hsend as (l & Hl & Hw).
        exists (length l). split.
        -- apply prefix_length in Hl. cbn in Hl. lia.
        -- rewrite Hw. f_equal. destruct Hl as [l' Hl'].
           destruct l as [|c [|c' l]]; [reflexivity | | ].
           ++ by injection Hl' as ->.
           ++ destruct l; discriminate Hl'.
      * by destruct Hend as [[a H]|[e H]].
    + exists 0%nat. split; [lia|].
      destruct Hend as [[a H]|[e H]]; [|done]. injection H as _ <-.
      by rewrite app_nil_r.
Qed.

(** X18. However the session ends, what it has written is the beginning
    of the eight set-up commands, then at most five probes, then the five
    diagnostic commands, in this order: it never sends a sixth probe and
    never sends a command out of turn. *)
Theorem session_sends_commands_in_order T D fuel (s0 s' : Serial) :
  ended (session T D fuel s0) s' ->
  exists (k : nat) (sent : list bytes),
    (k <= 5)%nat
    /\ sent `prefix_of` setup_commands ++ replicate k probe ++ diagnostics_commands
    /\ written s' = written s0 ++ sent.
Proof.
  unfold session. unfold bind at 1. intros Hend.
  pose proof (sends_setup fuel s0) as H1.
  destruct (setup fuel s0) as [[] s1|e s1|].
  - unfold bind at 1 in Hend.
    destruct (connect_loop fuel 5 (lit "UNABLE TO CONNECT") s1)
      as [Response s2|e s2|] eqn:Hloop.
    + destruct (connect_loop_sends fuel 5 (lit "UNABLE TO CONNECT") s1 s2)
        as (k & Hk & H2); [rewrite Hloop; left; by eexists|].
      exists k. destruct (unable_to_connect Response).
      * exists (setup_commands ++ replicate k probe). split; [done|].
        split; [rewrite app_assoc; apply prefix_app_r; done|].
        destruct Hend as [[a H]|[e H]]; [done|]. injection H as _ <-.
        cbn [written]. by rewrite H2, H1, app_assoc.
      * unfold bind in Hend. pose proof (sends_diagnostics T D fuel s2) as H3.
        destruct (diagnostics T D fuel s2) as [[] s3|e s3|].
        -- exists (setup_commands ++ replicate k probe ++ diagnostics_commands).
           split; [done|]. split; [done|].
           destruct Hend as [[a H]|[e H]]; [|done]. injection H as _ <-.
           cbn [written]. by rewrite H3, H2, H1, <- !app_assoc.
        -- destruct H3 as (l & Hl & H3).
           exists (setup_commands ++ replicate k probe ++ l).
           split; [done|]. split; [by do 2 apply prefix_app|].
           destruct Hend as [[a H]|[e' H]]; [done|]. injection H as _ <-.
           by rewrite H3, H2, H1, <- !app_assoc.
        -- by destruct Hend as [[a H]|[e H]].
    + destruct (connect_loop_sends fuel 5 (lit "UNABLE TO CONNECT") s1 s2)
        as (k & Hk & H2); [rewrite Hloop; right; by eexists|].
      exists k, (setup_commands ++ replicate k probe). split; [done|].
      split; [rewrite app_assoc; apply prefix_app_r; done|].
      destruct Hend as [[a H]|[e' H]]; [done|]. injection H as _ <-.
      by rewrite H2, H1, app_assoc.
    + by destruct Hend as [[a H]|[e H]].
  - destruct H1 as (l & Hl & H1). exists 0%nat, l. split; [lia|].
    split; [by apply prefix_app_r|].
    destruct Hend as [[a H]|[e' H]]; [done|]. by injection H as _ <-.
  - by destruct Hend as [[a H]|[e H]].
Qed.

Lemma session_sends_commands_in_order_witness :
  exists (k : nat) (sent : list bytes),
    (k <= 5)%nat
    /\ sent `prefix_of` setup_commands ++ replicate k probe ++ diagnostics_commands
    /\ connected_commands ++ [command "03"] = [] ++ sent.
Proof.
  apply (session_sends_commands_in_order P0_table ∅ 60
           (port (connected_replies ++ reply "4311330000"))
           (mkSerial [] (connected_commands ++ [command "03"]) true 0)).
  right. exists KeyError. vm_compute. reflexivity.
Defined.

(** ** What the session raises *)

Lemma keeps_open_ret {A} (a : A) : keeps_open (ret a).
Proof. by intros s Hopen. Qed.

Lemma keeps_open_lift {A} (r : result A) :
  raises_data_error r -> keeps_open (lift r).
Proof. intros Hr s Hopen. by destruct r. Qed.

Lemma keeps_open_bind {A B} (m : M A) (k : A -> M B) :
  keeps_open m -> (forall a, keeps_open (k a)) -> keeps_open (bind m k).
Proof.
  intros Hm Hk s Hopen. unfold bind. specialize (Hm s Hopen).
  destruct (m s) as [a s1|e s1|]; [|done|done].
  apply Hk, Hm.
Qed.

Lemma keeps_open_read : keeps_open read.
Proof.
  intros s Hopen. unfold read. rewrite Hopen.
  by destruct (incoming s).
Qed.

Lemma keeps_open_write (Data : bytes) : keeps_open (write Data).
Proof. intros s Hopen. unfold write. by rewrite Hopen. Qed.

Lemma raises_data_error_decode_byte (b : option Byte.byte) :
  raises_data_error (decode_byte b).
Proof.
  destruct b as [x|]; [|done]. unfold decode_byte.
  case_match; [done|]. right. by right.
Qed.

Lemma keeps_open_GetResponse_loop fuel (ReadChar : read_value) (Response : str) :
  keeps_open (GetResponse_loop fuel ReadChar Response).
Proof.
  revert ReadChar Response. induction fuel as [|fuel IH]; intros ReadChar Response;
    cbn [GetResponse_loop]; case_match; try apply keeps_open_ret; [done|].
  apply keeps_open_bind; [apply keeps_open_read|].
  intros b. case_match; [|apply IH].
  apply keeps_open_bind; [|intros text; apply IH].
  apply keeps_open_lift, raises_data_error_decode_byte.
Qed.

Lemma keeps_open_GetResponse fuel (Data : bytes) :
  keeps_open (GetResponse fuel Data).
Proof.
  unfold GetResponse.
  apply keeps_open_bind; [apply keeps_open_write|]. intros _.
  apply keeps_open_bind; [apply keeps_open_GetResponse_loop|].
  intros Response. apply keeps_open_ret.
Qed.

Lemma raises_data_error_decode_groups T (gs : list str) (TroubleCodes : list str) :
  raises_data_error (decode_groups T gs TroubleCodes).
Proof.
  revert TroubleCodes. induction gs as [|g gs IH]; intros acc;
    cbn [decode_groups]; [done|].
  destruct (decode_group T g acc) as [acc'|e] eqn:E; [apply IH|].
  apply decode_group_raises in E as [-> _].
  destruct (py_int g); [right; by left | by left].
Qed.

Lemma raises_data_error_fromhex_from (top : option N) (s : str) :
  raises_data_error (fromhex_from top s).
Proof.
  revert top. induction s as [|c s IH]; intros [t|]; simpl; try done;
    try (by left).
  - case_match; [|by left]. specialize (IH None).
    by destruct (fromhex_from None s).
  - repeat case_match; try (by left); apply IH.
Qed.

Lemma raises_data_error_vin_text (Response : str) :
  raises_data_error (vin_text Response).
Proof.
  unfold vin_text, fromhex.
  pose proof (raises_data_error_fromhex_from None Response) as H.
  destruct (fromhex_from None Response); [|done].
  cbn [result_bind]. unfold decode_utf8. case_match; [done|]. right. by right.
Qed.

Lemma keeps_open_GetTroubleCodeData T D fuel (OBDIImode : bytes) :
  keeps_open (GetTroubleCodeData T D fuel OBDIImode).
Proof.
  unfold GetTroubleCodeData.
  apply keeps_open_bind; [apply keeps_open_GetResponse|]. intros Response.
  apply keeps_open_bind; [|intros codes; apply keeps_open_ret].
  apply keeps_open_lift. rewrite DataToTroubleCodes_groups.
  apply raises_data_error_decode_groups.
Qed.

Lemma keeps_open_setup fuel : keeps_open (setup fuel).
Proof.
  unfold setup.
  repeat (apply keeps_open_bind; [apply keeps_open_GetResponse | intros ?]).
  apply keeps_open_ret.
Qed.

Lemma keeps_open_connect_loop fuel (TryCount : nat) (Response : str) :
  keeps_open (connect_loop fuel TryCount Response).
Proof.
  revert Response. induction TryCount as [|TryCount IH]; intros Response;
    cbn [connect_loop]; [apply keeps_open_ret|].
  case_match; [|apply keeps_open_ret].
  apply keeps_open_bind; [apply keeps_open_GetResponse | apply IH].
Qed.

Lemma keeps_open_diagnostics T D fuel : keeps_open (diagnostics T D fuel).
Proof.
  unfold diagnostics.
  apply keeps_open_bind; [apply keeps_open_GetResponse | intros ?].
  apply keeps_open_bind; [apply keeps_open_GetResponse | intros ?].
  apply keeps_open_bind;
    [apply keeps_open_lift, raises_data_error_vin_text | intros ?].
  repeat (apply keeps_open_bind; [apply keeps_open_GetTroubleCodeData | intros ?]).
  apply keeps_open_ret.
Qed.

(** Started on an open port, and for as long as the port answers the
    calls of [read] and [write], the session raises [SystemExit] or a
    [data_error]. *)
Lemma session_raises T D fuel (s0 s' : Serial) (e : exn) :
  is_open s0 = true ->
  session T D fuel s0 = Throw e s' ->
  e = SystemExit \/ data_error e.
Proof.
  intros Hopen. unfold session. unfold bind at 1.
  pose proof (keeps_open_setup fuel s0 Hopen) as H1.
  destruct (setup fuel s0) as [[] s1|e1 s1|]; [| |done].
  2:{ intros H. injection H as <- _. by right. }
  unfold bind at 1.
  pose proof (keeps_open_connect_loop fuel 5 (lit "UNABLE TO CONNECT") s1 H1) as H2.
  destruct (connect_loop fuel 5 _ s1) as [Response s2|e2 s2|]; [| |done].
  2:{ intros H. injection H as <- _. by right. }
  destruct (unable_to_connect Response).
  - intros H. injection H as <- _. by left.
  - unfold bind.
    pose proof (keeps_open_diagnostics T D fuel s2 H2) as H3.
    destruct (diagnostics T D fuel s2) as [[] s3|e3 s3|]; [done| |done].
    intros H. injection H as <- _. by right.
Qed.

(** X19. Started on an open port, the session never ends with
    [PortNotOpenError], [TypeError] or [IndexError]: the script never
    reads or writes the port after closing it, never decodes the integer
    that [ReadChar] starts with, and never takes the first character of
    an empty group. *)
Theorem session_never_misuses_port T D fuel (s0 s' : Serial) (e : exn) :
  is_open s0 = true ->
  session T D fuel s0 = Throw e s' ->
  e <> PortNotOpenError /\ e <> TypeError /\ e <> IndexError.
Proof.
  intros Hopen Hrun.
  destruct (session_raises T D fuel s0 s' e Hopen Hrun) as [->|[->|[->| ->]]];
    repeat split; discriminate.
Qed.

Lemma session_never_misuses_port_witness :
  KeyError <> PortNotOpenError /\ KeyError <> TypeError /\ KeyError <> IndexError.
Proof.
  apply (session_never_misuses_port P0_table ∅ 60
           (port (connected_replies ++ reply "4311330000"))
           (mkSerial [] (connected_commands ++ [command "03"]) true 0)).
  - reflexivity.
  - vm_compute. reflexivity.
Defined.

(** ** Loading the lookup tables *)

Lemma load_line_lookup (Table : gmap str str) (line key : str) :
  load_line Table line !! key
  = if decide (line_key line = key) then Some (line_value line) else Table !! key.
Proof.
  unfold load_line, line_key, line_value.
  destruct (partition_space line) as [Key Value]. cbn [fst snd].
  destruct (decide (Key = key)) as [->|Hne].
  - apply lookup_insert_eq.
  - by apply lookup_insert_ne.
Qed.

Lemma load_file_lookup (Table : gmap str str) (lines : list str) (key : str) :
  load_file Table lines !! key
  = match last_value key lines with
    | Some value => Some value
    | None => Table !! key
    end.
Proof.
  unfold load_file. revert Table.
  induction lines as [|line lines IH]; intros Table; cbn [fold_left last_value].
  - reflexivity.
  - rewrite IH. destruct (last_value key lines); [reflexivity|].
    rewrite load_line_lookup. by destruct (decide (line_key line = key)).
Qed.

(** X20. In the prefix table a key maps to the value of the last line of
    the file that has this key, and is absent when no line has it. *)
Theorem load_TroubleCodePrefix_last_line_wins (ThisFile : list str) (key : str) :
  load_TroubleCodePrefix ThisFile !! key = last_value key ThisFile.
Proof.
  unfold load_TroubleCodePrefix. rewrite load_file_lookup.
  destruct (last_value key ThisFile); [reflexivity | apply lookup_empty].
Qed.

(** X21. An entry of the manufacturer's file replaces the entry of the
    ISO/SAE file for the same code; a code the manufacturer's file does
    not have keeps its ISO/SAE description. *)
Theorem load_TroubleCodeDescriptions_manufacturer_overrides
    (iso manufacturer : list str) (code : str) :
  load_TroubleCodeDescriptions iso manufacturer !! code
  = match last_value code manufacturer with
    | Some description => Some description
    | None => last_value code iso
    end.
Proof.
  unfold load_TroubleCodeDescriptions. rewrite !load_file_lookup.
  destruct (last_value code manufacturer); [reflexivity|].
  destruct (last_value code iso); [reflexivity | apply lookup_empty].
Qed.

Lemma partition_space_no_space (line : str) :
  " "%char ∉ fst (partition_space line).
Proof.
  induction line as [|c line IH]; cbn [partition_space].
  - apply not_elem_of_nil.
  - destruct (decide (c = " "%char)); [apply not_elem_of_nil|].
    destruct (partition_space line) as [before after]. cbn [fst] in *.
    apply not_elem_of_cons. split; [congruence | done].
Qed.

Lemma partition_space_whole (line : str) :
  " "%char ∉ line -> partition_space line = (line, []).
Proof.
  induction line as [|c line IH]; intros Hnot; [reflexivity|].
  apply not_elem_of_cons in Hnot as [Hne Hnot]. cbn [partition_space].
  rewrite decide_False by congruence. by rewrite IH.
Qed.

Lemma lstrip_space_head (s : str) (c : ascii) :
  head (lstrip_space s) = Some c -> is_space c = false.
Proof.
  induction s as [|a s IH]; [done|]. cbn [lstrip_space].
  destruct (is_space a) eqn:Ha; [exact IH|].
  cbn. intros H. by injection H as <-.
Qed.

Lemma lstrip_space_suffix (s : str) : lstrip_space s `suffix_of` s.
Proof.
  induction s as [|a s IH]; [done|]. cbn [lstrip_space].
  destruct (is_space a); [by apply suffix_cons_r | done].
Qed.

Lemma rev_reverse {A} (l : list A) : rev l = reverse l.
Proof. unfold reverse. apply rev_alt. Qed.

Lemma py_strip_ends (s : str) (c : ascii) :
  (head (py_strip s) = Some c -> is_space c = false)
  /\ (last (py_strip s) = Some c -> is_space c = false).
Proof.
  unfold py_strip. rewrite !rev_reverse. split.
  - rewrite head_reverse. intros Hlast.
    destruct (lstrip_space_suffix (reverse (lstrip_space s))) as [pre Hpre].
    assert (last (reverse (lstrip_space s)) = Some c) as Hl.
    { rewrite Hpre, last_app, Hlast. reflexivity. }
    rewrite last_reverse in Hl. by eapply lstrip_space_head.
  - rewrite last_reverse. apply lstrip_space_head.
Qed.

(** X22. Whatever the files hold, a key of a loaded table has no space in
    it and a value has no white space at its beginning or its end. *)
Theorem load_file_keys_and_values (lines : list str) (key value : str) :
  load_file ∅ lines !! key = Some value ->
  (" "%char ∉ key)
  /\ (forall c, head value = Some c -> is_space c = false)
  /\ (forall c, last value = Some c -> is_space c = false).
Proof.
  rewrite load_file_lookup.
  assert (last_value key lines = Some value ->
          (" "%char ∉ key)
          /\ (forall c, head value = Some c -> is_space c = false)
          /\ (forall c, last value = Some c -> is_space c = false)) as Hlast.
  { induction lines as [|line lines IH]; cbn [last_value]; [done|].
    destruct (last_value key lines); [exact IH|].
    destruct (decide (line_key line = key)) as [<-|]; [|done].
    intros H. injection H as <-. split; [apply partition_space_no_space|].
    split; intros c; apply py_strip_ends. }
  destruct (last_value key lines); [exact Hlast | by rewrite lookup_empty].
Qed.

Lemma load_file_keys_and_values_witness :
  (" "%char ∉ lit "P0133")
  /\ (forall c, head (lit "O2 Sensor") = Some c -> is_space c = false)
  /\ (forall c, last (lit "O2 Sensor") = Some c -> is_space c = false).
Proof.
  apply (load_file_keys_and_values
           [lit "P0133  O2 Sensor " ++ [LF]; lit "P0171 System Too Lean" ++ [LF]]).
  vm_compute. reflexivity.
Defined.

(** X23. A line with no space in it is not skipped: the whole line, its
    line break included, becomes a key, and its value is the empty
    string. *)
Theorem load_line_without_space (Table : gmap str str) (ThisLine : str) :
  " "%char ∉ ThisLine ->
  load_line Table ThisLine = <[ThisLine := []]> Table.
Proof.
  intros Hnot. unfold load_line. by rewrite partition_space_whole.
Qed.

Lemma load_line_without_space_witness :
  load_line ∅ (lit "P0133" ++ [LF]) !! (lit "P0133" ++ [LF]) = Some [].
Proof.
  rewrite load_line_without_space; [apply lookup_insert_eq|].
  intros Hin. repeat (apply elem_of_cons in Hin as [Hin|Hin]; [discriminate Hin|]).
  by apply elem_of_nil in Hin.
Defined.

(** X24. The decoder looks up keys of one character only: two prefix
    tables that agree on those keys decode every payload alike, so an
    entry with a longer or an empty key is never used. *)
Theorem DataToTroubleCodes_uses_one_character_keys (T T' : gmap str str) (Data : str) :
  (forall c : ascii, T !! [c] = T' !! [c]) ->
  DataToTroubleCodes T Data = DataToTroubleCodes T' Data.
Proof.
  intros Hagree. rewrite !DataToTroubleCodes_groups. generalize (@nil str).
  induction (groups Data) as [|g gs IH]; intros acc; cbn [decode_groups];
    [reflexivity|].
  assert (decode_group T g acc = decode_group T' g acc) as ->.
  { unfold decode_group. destruct (py_int g); [|reflexivity]. cbn [result_bind].
    case_match; [|reflexivity]. destruct g as [|c g]; [reflexivity|].
    cbn [first_char result_bind]. unfold dict_get. by rewrite Hagree. }
  destruct (decode_group T' g acc); [apply IH | reflexivity].
Qed.

Lemma DataToTroubleCodes_uses_one_character_keys_witness :
  DataToTroubleCodes P0_table (lit "0133")
  = DataToTroubleCodes (<[lit "01" := lit "C0"]> P0_table) (lit "0133").
Proof.
  apply DataToTroubleCodes_uses_one_character_keys.
  intros c. symmetry. apply lookup_insert_ne. discriminate.
Defined.

(** ** The VIN text *)

Lemma hex_digit_not_space (c : ascii) (t : N) :
  hex_value c = Some t -> is_hex_space c = false.
Proof.
  unfold hex_value, is_hex_space. intros H.
  destruct (N_of_ascii c) as [|p] eqn:E; [done|].
  repeat (destruct p as [p|p|]; try done).
Qed.

Lemma fromhex_from_parity (s : str) :
  Forall (fun c => is_Some (hex_value c)) s ->
  (Nat.odd (length s) = true -> fromhex_from None s = Raise ValueError)
  /\ (Nat.odd (length s) = false ->
      forall t, fromhex_from (Some t) s = Raise ValueError).
Proof.
  induction 1 as [|c s [t Hc] _ [IHodd IHeven]]; cbn [fromhex_from length].
  - split; [done | reflexivity].
  - rewrite Nat.odd_succ, <- Nat.negb_odd. split; intros Hpar.
    + rewrite (hex_digit_not_space c t Hc), Hc. apply IHeven.
      by destruct (Nat.odd (length s)).
    + intros t'. rewrite Hc, IHodd; [reflexivity|].
      by destruct (Nat.odd (length s)).
Qed.

(** X25. A pruned VIN response made of an odd number of hexadecimal
    digits is not truncated: the VIN step raises [ValueError]. *)
Theorem vin_text_odd_digits (Response : str) :
  Forall (fun c => is_Some (hex_value c)) Response ->
  Nat.odd (length Response) = true ->
  vin_text Response = Raise ValueError.
Proof.
  intros Hhex Hodd. unfold vin_text, fromhex.
  destruct (fromhex_from_parity Response Hhex) as [-> _]; done.
Qed.

Lemma vin_text_odd_digits_witness :
  vin_text (lit "57444") = Raise ValueError.
Proof.
  apply vin_text_odd_digits; [|reflexivity].
  repeat constructor; by eexists.
Defined.

(** X26. The VIN text has no zero byte: it has as many bytes as the
    response encodes, every zero byte turned into a space and every other
    byte unchanged and in place. *)
Theorem vin_text_has_no_zero_byte (Response : str) (text : bytes) :
  vin_text Response = Ok text ->
  (x00 ∉ text)
  /\ exists raw, fromhex Response = Ok raw
       /\ length text = length raw
       /\ (forall i, raw !! i = Some x00 -> text !! i = Some x20)
       /\ (forall i b, raw !! i = Some b -> b <> x00 -> text !! i = Some b).
Proof.
  unfold vin_text. destruct (fromhex Response) as [raw|e]; [|done].
  cbn [result_bind]. unfold decode_utf8.
  destruct (utf8_valid_from [] _); [|done].
  intros Hrun. injection Hrun as <-. split.
  - intros Hin. apply list_elem_of_fmap in Hin as (b & Hb & _).
    by destruct (decide (b = x00)).
  - exists raw. split; [reflexivity|]. split; [apply length_map|]. split.
    + intros i Hi. rewrite list_lookup_fmap, Hi. reflexivity.
    + intros i b Hi Hb. rewrite list_lookup_fmap, Hi. cbn.
      by rewrite decide_False.
Qed.

Lemma vin_text_has_no_zero_byte_witness :
  (x00 ∉ blit "W B") /\ vin_text (lit "570042") = Ok (blit "W B").
Proof.
  assert (vin_text (lit "570042") = Ok (blit "W B")) as Hrun by reflexivity.
  split; [|exact Hrun].
  by destruct (vin_text_has_no_zero_byte _ _ Hrun) as [Hzero _].
Defined.
